(** * llm-test-cache-go: the response cache of [main.go]

    A shallow embedding of the file-backed response cache: the Go values
    ([CacheEntry], [Cache], [CachingClient]), the fingerprint
    ([generateHash]), the persistence functions ([loadCache], [saveCache],
    [clearCache]), the eviction policy ([evictIfNeeded]) and the fetch
    operation ([getResponse]), followed by the properties proved about
    them.

    What the program leaves to its surroundings is explicit: the order in
    which [range] visits a map and the order [sort.Slice] leaves equal
    timestamps in ([Runtime]), the clock and the failures of system calls
    ([Env]), the file system ([World]), and the two library functions under
    the fingerprint, [json.Marshal] and [sha256.Sum256] (section
    variables). *)

From stdpp Require Import gmap strings list fin_maps sorting.
From Stdlib Require Import ZArith Lia.
From Stdlib.Strings Require Import Byte.

Local Open Scope Z_scope.

(** ** Go's [int64] *)

Module Int64.

Definition min_int : Z := - 2 ^ 63.
Definition max_int : Z := 2 ^ 63 - 1.

(** Two's-complement wrap-around of an out-of-range result. *)
Definition wrap (z : Z) : Z := (z + 2 ^ 63) mod 2 ^ 64 - 2 ^ 63.

Definition add (a b : Z) : Z := wrap (a + b).
Definition sub (a b : Z) : Z := wrap (a - b).

Definition in_range (z : Z) : Prop := min_int ≤ z ≤ max_int.

End Int64.

(** ** Data model *)

(** A [time.Time] is represented by the instant it denotes, in nanoseconds
    on the wall clock; [Before] compares instants. *)
Definition Time : Type := Z.

Definition Before (t u : Time) : bool := t <? u.

(** [len(s)] for a Go string: its number of bytes. *)
Definition len (s : string) : Z := Z.of_nat (String.length s).

Record CacheEntry : Type := mkCacheEntry {
  Response : string;
  Timestamp : Time;
}.

(** The zero value [CacheEntry{}], which indexing a map yields for a missing
    key. *)
Definition zeroEntry : CacheEntry := mkCacheEntry "" 0.

(** A Go [map[string]CacheEntry]: either the nil map or an allocated table. *)
Inductive GoMap : Type :=
  | NilMap
  | Table (m : gmap string CacheEntry).

Record Cache : Type := mkCache {
  Responses : GoMap;
}.

(** The entries a cache holds, the nil map holding none. *)
Definition table (gm : GoMap) : gmap string CacheEntry :=
  match gm with
  | NilMap => ∅
  | Table m => m
  end.

Definition store (cache : Cache) : gmap string CacheEntry :=
  table (Responses cache).

(** [v, found := m[k]] *)
Definition go_lookup (gm : GoMap) (k : string) : option CacheEntry :=
  table gm !! k.

(** [m[k]] as an expression: the zero value when [k] is missing. *)
Definition go_index (gm : GoMap) (k : string) : CacheEntry :=
  default zeroEntry (go_lookup gm k).

(** [delete(m, k)]: a no-op on the nil map and on a missing key. *)
Definition go_delete (gm : GoMap) (k : string) : GoMap :=
  match gm with
  | NilMap => NilMap
  | Table m => Table (delete k m)
  end.

(** [m[k] = v]: the runtime panics on the nil map. *)
Definition go_assign (gm : GoMap) (k : string) (v : CacheEntry) : option GoMap :=
  match gm with
  | NilMap => None
  | Table m => Some (Table (<[k := v]> m))
  end.

(** Errors are values; the constructors name where an error comes from. *)
Inductive error : Type :=
  | JSONError (msg : string)
  | IOError (msg : string)
  | APIError (msg : string).

(** ** The runtime's free choices

    [range] over a map visits every entry exactly once, in an order the
    language leaves unspecified, and [sort.Slice] is not stable.  Both are
    parameters of the model; [RuntimeOk] states what Go guarantees of
    them. *)

Record Runtime : Type := mkRuntime {
  range_sizes : gmap string CacheEntry → list (string * CacheEntry);
  range_entries : gmap string CacheEntry → list (string * CacheEntry);
  sort_Slice : (string * Time → string * Time → bool) →
               list (string * Time) → list (string * Time);
}.

(** The [less] function handed to [sort.Slice] at line 165. *)
Definition byTimestamp (a b : string * Time) : bool := Before a.2 b.2.

(** No element after another is [less] than it. *)
Definition sorted_by {A} (less : A → A → bool) (l : list A) : Prop :=
  StronglySorted (λ a b, less b a = false) l.

Record RuntimeOk (rt : Runtime) : Prop := mkRuntimeOk {
  range_sizes_perm : ∀ m, range_sizes rt m ≡ₚ map_to_list m;
  range_entries_perm : ∀ m, range_entries rt m ≡ₚ map_to_list m;
  sort_Slice_perm : ∀ less l, sort_Slice rt less l ≡ₚ l;
  sort_Slice_sorted : ∀ l,
    sorted_by byTimestamp (sort_Slice rt byTimestamp l);
}.

Definition go_range (order : gmap string CacheEntry → list (string * CacheEntry))
    (gm : GoMap) : list (string * CacheEntry) :=
  match gm with
  | NilMap => []
  | Table m => order m
  end.

(** ** Eviction: [evictIfNeeded] *)

Record CachingClient (Request : Type) : Type := mkCachingClient {
  CreateChatCompletion : Request → error + list string;
  cacheEnabled : bool;
  cacheSizeLimit : Z;
}.
Arguments mkCachingClient {Request} _ _ _.
Arguments CreateChatCompletion {Request} _ _.
Arguments cacheEnabled {Request} _.
Arguments cacheSizeLimit {Request} _.

Definition cacheFile : string := "cache/response-cache.json".
Definition defaultCacheSizeLimit : Z := 10 * 1024 * 1024.

(** The embedded [*openai.Client] is represented by the one method the cache
    calls on it; a request yields an error or the contents of the choices'
    messages. *)
Definition NewCachingClient {Request}
    (client : Request → error + list string)
    (cacheEnabled : bool) (cacheSizeLimit : Z) : CachingClient Request :=
  mkCachingClient client cacheEnabled cacheSizeLimit.

(** The first loop: [cacheSize += int64(len(entry.Response))]. *)
Definition sumSizes (visited : list (string * CacheEntry)) : Z :=
  foldl (λ cacheSize he, Int64.add cacheSize (len (Response he.2))) 0 visited.

(** The last loop, over the sorted slice. *)
Fixpoint evictLoop (limit : Z) (entries : list (string * Time))
    (cacheSize : Z) (gm : GoMap) : GoMap :=
  match entries with
  | [] => gm
  | oldest :: entries' =>
      if limit <? cacheSize then
        evictLoop limit entries'
          (Int64.sub cacheSize (len (Response (go_index gm oldest.1))))
          (go_delete gm oldest.1)
      else gm
  end.

Definition evictIfNeeded {Request} (rt : Runtime) (c : CachingClient Request)
    (cache : Cache) : Cache * option error :=
  let cacheSize := sumSizes (go_range (range_sizes rt) (Responses cache)) in
  if cacheSize <=? cacheSizeLimit c then (cache, None)
  else
    let entries :=
      (λ he : string * CacheEntry, (he.1, Timestamp he.2))
        <$> go_range (range_entries rt) (Responses cache) in
    let entries := sort_Slice rt byTimestamp entries in
    (mkCache (evictLoop (cacheSizeLimit c) entries cacheSize (Responses cache)),
     None).

(** ** Fingerprint: [generateHash] *)

Definition hextable : string := "0123456789abcdef".

Definition hexdigit (n : N) : Ascii.ascii :=
  default Ascii.zero (String.get (N.to_nat n) hextable).

(** [hex.EncodeToString]: two lower-case digits per byte, high nibble
    first. *)
Fixpoint hex_EncodeToString (src : list byte) : string :=
  match src with
  | [] => EmptyString
  | v :: src' =>
      String (hexdigit (N.shiftr (Byte.to_N v) 4))
        (String (hexdigit (N.land (Byte.to_N v) 15)) (hex_EncodeToString src'))
  end.

(** The value of a lower-case hexadecimal digit. *)
Definition hexval (c : Ascii.ascii) : option N :=
  let n := Ascii.N_of_ascii c in
  if ((48 <=? n) && (n <=? 57))%N then Some (n - 48)%N
  else if ((97 <=? n) && (n <=? 102))%N then Some (n - 87)%N
  else None.

(** Reading the digits back, two per byte; it is used to show that
    [hex_EncodeToString] loses nothing. *)
Fixpoint hex_DecodeString (s : string) : option (list byte) :=
  match s with
  | EmptyString => Some []
  | String hi (String lo s') =>
      match hexval hi, hexval lo, hex_DecodeString s' with
      | Some h, Some l, Some src' =>
          match Byte.of_N (16 * h + l) with
          | Some v => Some (v :: src')
          | None => None
          end
      | _, _, _ => None
      end
  | String _ EmptyString => None
  end.

(** ** The persisted cache *)

(** The bytes of [cache/response-cache.json], represented by what
    [json.Unmarshal] makes of them: an error, or the [Cache] they decode to.
    A document without a ["responses"] member (such as [{}]), or with
    ["responses": null], decodes to a [Cache] whose map is nil. *)
Inductive FileData : Type :=
  | Malformed (err : error)
  | Encodes (cache : Cache).

Inductive Disk : Type :=
  | NoDir                     (* no [cache] directory *)
  | NoFile                    (* the directory, without the file *)
  | File (data : FileData).

(** The file system, and the caches handed to [os.WriteFile] so far (most
    recent first). *)
Record World : Type := mkWorld {
  disk : Disk;
  written : list Cache;
}.

(** What the surroundings decide during one call: the runtime's choices, the
    clock, and which system calls fail. *)
Record Env : Type := mkEnv {
  runtime : Runtime;
  now : Time;
  read_fault : option error;
  mkdir_fault : option error;
  write_fault : option error;
  remove_fault : option error;
}.

Definition ErrNotExist : error := IOError "file does not exist".

(** [os.Stat(cacheFile)] followed by [os.IsNotExist(err)]. *)
Definition stat_IsNotExist (w : World) : bool :=
  match disk w with
  | NoDir | NoFile => true
  | File _ => false
  end.

Definition os_ReadFile (env : Env) (w : World) : error + FileData :=
  match read_fault env with
  | Some err => inl err
  | None =>
      match disk w with
      | File data => inr data
      | _ => inl ErrNotExist
      end
  end.

Definition json_Unmarshal (data : FileData) : error + Cache :=
  match data with
  | Malformed err => inl err
  | Encodes cache => inr cache
  end.

(** [json.MarshalIndent]: the stored strings are valid UTF-8 and the stored
    times are clock readings, for which encoding succeeds and decoding
    gives the value back. *)
Definition json_MarshalIndent (cache : Cache) : error + FileData :=
  inr (Encodes cache).

Definition os_MkdirAll (env : Env) (w : World) : World * option error :=
  match mkdir_fault env with
  | Some err => (w, Some err)
  | None =>
      match disk w with
      | NoDir => (mkWorld NoFile (written w), None)
      | _ => (w, None)
      end
  end.

(** A write that fails is taken to leave the file as it was. *)
Definition os_WriteFile (env : Env) (data : FileData) (cache : Cache)
    (w : World) : World * option error :=
  match write_fault env with
  | Some err => (mkWorld (disk w) (cache :: written w), Some err)
  | None => (mkWorld (File data) (cache :: written w), None)
  end.

(** [os.RemoveAll(filepath.Dir(cacheFile))]; a removal that fails is taken
    to leave the directory as it was. *)
Definition os_RemoveAll (env : Env) (w : World) : World * option error :=
  match remove_fault env with
  | Some err => (w, Some err)
  | None => (mkWorld NoDir (written w), None)
  end.

Definition loadCache (env : Env) (w : World) : error + Cache :=
  if stat_IsNotExist w then inr (mkCache (Table ∅))
  else
    match os_ReadFile env w with
    | inl err => inl err
    | inr data =>
        match json_Unmarshal data with
        | inl err => inl err
        | inr cache => inr cache
        end
    end.

Definition saveCache (env : Env) (cache : Cache) (w : World)
    : World * option error :=
  match os_MkdirAll env w with
  | (w, Some err) => (w, Some err)
  | (w, None) =>
      match json_MarshalIndent cache with
      | inl err => (w, Some err)
      | inr data => os_WriteFile env data cache w
      end
  end.

Definition clearCache (env : Env) (w : World) : World * option error :=
  os_RemoveAll env w.

(** ** The fetch operation: [fetchResponse] and [getResponse] *)

Inductive Panic : Type :=
  | IndexOutOfRange           (* [resp.Choices[0]] on an empty slice *)
  | AssignToNilMap.           (* [m[k] = v] on the nil map *)

(** How a call of [fetchResponse] or [getResponse] ends: at the [return]
    statement on the given line of [main.go] with the three values it
    returns, or in a run-time panic. *)
Inductive Outcome : Type :=
  | Return (line : nat) (response : string) (cached : bool) (err : option error)
  | Panics (p : Panic).

Section Fetcher.

Context {Request : Type}.

(** [json.Marshal] on a request and [sha256.Sum256] are library code. *)
Variable json_Marshal : Request → error + list byte.
Variable sha256_Sum256 : list byte → list byte.

Definition generateHash (req : Request) : error + string :=
  match json_Marshal req with
  | inl err => inl err
  | inr data => inr (hex_EncodeToString (sha256_Sum256 data))
  end.

Definition fetchResponse (c : CachingClient Request) (req : Request)
    : Outcome :=
  match CreateChatCompletion c req with
  | inl err => Return 94 "" false (Some err)
  | inr Choices =>
      match Choices with
      | [] => Panics IndexOutOfRange
      | Content :: _ => Return 96 Content false None
      end
  end.

Definition getResponse (c : CachingClient Request) (env : Env)
    (req : Request) (w : World) : World * Outcome :=
  if negb (cacheEnabled c) then
    match fetchResponse c req with
    | Return _ response cached err => (w, Return 101 response cached err)
    | Panics p => (w, Panics p)
    end
  else
  match loadCache env w with
  | inl err => (w, Return 106 "" false (Some err))
  | inr cache =>
  match generateHash req with
  | inl err => (w, Return 111 "" false (Some err))
  | inr hash =>
  match go_lookup (Responses cache) hash with
  | Some entry =>
      let entry := mkCacheEntry (Response entry) (now env) in
      match go_assign (Responses cache) hash entry with
      | None => (w, Panics AssignToNilMap)
      | Some responses =>
          match saveCache env (mkCache responses) w with
          | (w, Some err) => (w, Return 118 "" false (Some err))
          | (w, None) => (w, Return 120 (Response entry) true None)
          end
      end
  | None =>
      match fetchResponse c req with
      | Panics p => (w, Panics p)
      | Return _ _ _ (Some err) => (w, Return 125 "" false (Some err))
      | Return _ response _ None =>
          match go_assign (Responses cache) hash
                  (mkCacheEntry response (now env)) with
          | None => (w, Panics AssignToNilMap)
          | Some responses =>
              match evictIfNeeded (runtime env) c (mkCache responses) with
              | (_, Some err) => (w, Return 134 "" false (Some err))
              | (cache, None) =>
                  match saveCache env cache w with
                  | (w, Some err) => (w, Return 138 "" false (Some err))
                  | (w, None) => (w, Return 141 response false None)
                  end
              end
          end
      end
  end end end.

End Fetcher.

(** ** A runtime to compute with

    [range] in the map's key order and a stable merge sort: one of the
    behaviours [RuntimeOk] allows. *)

Definition notAfter (less : string * Time → string * Time → bool)
    (a b : string * Time) : Prop := less b a = false.

#[global] Instance notAfter_dec less a b : Decision (notAfter less a b) :=
  decide (less b a = false).

Definition stableRuntime : Runtime :=
  mkRuntime map_to_list map_to_list (λ less, merge_sort (notAfter less)).

(** A [range] that visits the entries in the opposite order. *)
Definition reverseRuntime : Runtime :=
  mkRuntime (λ m, reverse (map_to_list m)) (λ m, reverse (map_to_list m))
    (λ less, merge_sort (notAfter less)).

(** No system call of the load and save paths fails. *)
Definition noFaults (env : Env) : Prop :=
  read_fault env = None ∧ mkdir_fault env = None ∧ write_fault env = None.

(** An environment in which no system call fails. *)
Definition quietEnv (rt : Runtime) (t : Time) : Env :=
  mkEnv rt t None None None None.

(** ** Sizes without wrap-around *)

(** The sum of the payload lengths as a mathematical integer. *)
Definition sizes (l : list (string * CacheEntry)) : Z :=
  foldr (λ he acc, len (Response he.2) + acc) 0 l.

Definition totalSize (m : gmap string CacheEntry) : Z := sizes (map_to_list m).

(** The total is a number an [int64] holds; the payloads are strings in the
    memory of one process, so this holds of every cache that exists. *)
Definition fitsInt64 (m : gmap string CacheEntry) : Prop :=
  totalSize m ≤ Int64.max_int.

(** The slice [evictIfNeeded] builds before sorting, up to order: the hash
    and the timestamp of every entry. *)
Definition ranked (m : gmap string CacheEntry) : list (string * Time) :=
  (λ he : string * CacheEntry, (he.1, Timestamp he.2)) <$> map_to_list m.

(** The map once the listed keys are deleted, first to last. *)
Definition deleteAll (ks : list string) (m : gmap string CacheEntry)
    : gmap string CacheEntry :=
  foldl (λ m k, delete k m) m ks.

(** ** The callers: [main] and [TestCacheAPIResponses]

    The fields of [openai.ChatCompletionRequest] that the program sets; the
    others keep their zero values in every request it builds. *)

Record ChatCompletionMessage : Type := mkChatCompletionMessage {
  Role : string;
  Content : string;
}.

Record ChatCompletionRequest : Type := mkChatCompletionRequest {
  Model : string;
  Messages : list ChatCompletionMessage;
  Seed : option Z;
  MaxTokens : Z;
}.

Definition models : list string :=
  ["gpt-3.5-turbo-1106"; "gpt-3.5-turbo-0125"].

Definition prompts : list string :=
  ["Tell me a joke.";
   "Explain the theory of relativity.";
   "What's the capital of France?";
   "How does a computer work?";
   "What's the meaning of life?"].

Definition seed : Z := 12345.

(** The request literal of lines 209 to 216 of [main.go] and 51 to 58 of the
    test. *)
Definition newRequest (model prompt : string) (maxTokens : Z)
    : ChatCompletionRequest :=
  mkChatCompletionRequest model [mkChatCompletionMessage "user" prompt]
    (Some seed) maxTokens.

(** A loop whose body may panic, which ends the loop (and the program) in
    the state reached. *)
Fixpoint forEach {A S : Type} (body : A → S → S * option Panic) (l : list A)
    (st : S) : S * option Panic :=
  match l with
  | [] => (st, None)
  | a :: l' =>
      match body a st with
      | (st', None) => forEach body l' st'
      | (st', Some p) => (st', Some p)
      end
  end.

(** [err.Error()], as [%v] prints it. *)
Definition error_string (err : error) : string :=
  match err with
  | JSONError msg | IOError msg | APIError msg => msg
  end.

(** The state of a run: the world, the number of calls made so far (the
    [n]-th call meets the surroundings [envs n]), and the lines printed or
    the assertions that failed. *)
Record Run : Type := mkRun {
  world : World;
  calls : nat;
  lines : list string;
}.

Inductive Exit : Type :=
  | Exit0
  | Exit1
  | Crashed (p : Panic).

Section Callers.

Variable json_Marshal : ChatCompletionRequest → error + list byte.
Variable sha256_Sum256 : list byte → list byte.

(** What [openai.NewClient(apiKey)] can do, and the surroundings of each
    call in turn. *)
Variable client : ChatCompletionRequest → error + list string.
Variable envs : nat → Env.

(** Lines 208 to 227 of [main.go]: one prompt. *)
Definition mainPrompt (c : CachingClient ChatCompletionRequest)
    (model prompt : string) (st : Run) : Run * option Panic :=
  let req := newRequest model prompt 100 in
  match getResponse json_Marshal sha256_Sum256 c (envs (calls st)) req
          (world st) with
  | (w, Panics p) => (mkRun w (S (calls st)) (lines st), Some p)
  | (w, Return _ response cached err) =>
      let line :=
        match err with
        | Some err =>
            "Error fetching response for prompt '" +:+ prompt +:+ "': "
              +:+ error_string err
        | None =>
            if cached
            then "Cached response for prompt '" +:+ prompt +:+ "': "
                   +:+ response
            else "API response for prompt '" +:+ prompt +:+ "': "
                   +:+ response
        end in
      (mkRun w (S (calls st)) (lines st ++ [line]), None)
  end.

Definition mainModel (c : CachingClient ChatCompletionRequest)
    (model : string) (st : Run) : Run * option Panic :=
  forEach (mainPrompt c model) prompts
    (mkRun (world st) (calls st) (lines st ++ ["Testing model: " +:+ model])).

(** [main], given the environment variable and the two flags: the world it
    leaves, the lines it prints and how the process ends. *)
Definition main (apiKey : string) (cacheEnabled : bool) (cacheSizeLimit : Z)
    (w : World) : World * list string * Exit :=
  if decide (apiKey = "") then
    (w, ["Error: OPENAI_API_KEY environment variable not set."], Exit1)
  else
    let c := NewCachingClient client cacheEnabled cacheSizeLimit in
    match forEach (mainModel c) models (mkRun w 0 []) with
    | (st, None) => (world st, lines st, Exit0)
    | (st, Some p) => (world st, lines st, Crashed p)
    end.

(** The assertions of testify's [assert], each giving the messages of the
    failures it records. *)
Definition assert_NoError (err : option error) (msg : string) : list string :=
  match err with
  | None => []
  | Some _ => [msg]
  end.

Definition assert_False (b : bool) (msg : string) : list string :=
  if b then [msg] else [].

Definition assert_True (b : bool) (msg : string) : list string :=
  if b then [] else [msg].

Definition assert_Equal (a b : string) (msg : string) : list string :=
  if decide (a = b) then [] else [msg].

(** The flags of the test. *)
Variable maxTokens : Z.
Variable testCacheability : bool.
Variable keepCache : bool.

(** Lines 50 to 67 of the test: one prompt in round [i]; [lines] collects
    the failed assertions. *)
Definition testPrompt (c : CachingClient ChatCompletionRequest)
    (model : string) (i : nat) (prompt : string) (st : Run)
    : Run * option Panic :=
  let req := newRequest model prompt maxTokens in
  match getResponse json_Marshal sha256_Sum256 c (envs (calls st)) req
          (world st) with
  | (w, Panics p) => (mkRun w (S (calls st)) (lines st), Some p)
  | (w, Return _ response cached err) =>
      (mkRun w (S (calls st))
         (lines st ++ assert_NoError err "Received unexpected error"
          ++ (if (i =? 0)%nat
              then assert_False cached "First run should be a cache miss"
              else assert_True cached "Subsequent runs should use cache")),
       None)
  end.

Definition testRound (c : CachingClient ChatCompletionRequest)
    (model : string) (i : nat) (st : Run) : Run * option Panic :=
  forEach (testPrompt c model i) prompts st.

(** Lines 70 to 85: the same request twice, and the two responses
    compared. *)
Definition testDeterminism (c : CachingClient ChatCompletionRequest)
    (model : string) (st : Run) : Run * option Panic :=
  let req := newRequest model (nth 0 prompts "") maxTokens in
  match getResponse json_Marshal sha256_Sum256 c (envs (calls st)) req
          (world st) with
  | (w1, Panics p) => (mkRun w1 (S (calls st)) (lines st), Some p)
  | (w1, Return _ response1 _ err1) =>
      match getResponse json_Marshal sha256_Sum256 c (envs (S (calls st))) req
              w1 with
      | (w2, Panics p) =>
          (mkRun w2 (S (S (calls st)))
             (lines st ++ assert_NoError err1 "Received unexpected error"),
           Some p)
      | (w2, Return _ response2 _ err2) =>
          (mkRun w2 (S (S (calls st)))
             (lines st
              ++ assert_NoError err1 "Received unexpected error"
              ++ assert_NoError err2 "Received unexpected error"
              ++ assert_Equal response1 response2
                   "API / model is not behaving in a cacheable way"),
           None)
      end
  end.

Definition testModel (c : CachingClient ChatCompletionRequest)
    (model : string) (st : Run) : Run * option Panic :=
  match forEach (testRound c model) [0; 1; 2]%nat st with
  | (st, None) =>
      if testCacheability then testDeterminism c model st else (st, None)
  | (st, Some p) => (st, Some p)
  end.

(** [TestCacheAPIResponses], given the environment variable and the
    [cache-size-limit] flag; the test passes when it ends without a panic
    and with no failed assertion. *)
Definition TestCacheAPIResponses (apiKey : string) (cacheSizeLimit : Z)
    (w : World) : Run * option Panic :=
  if decide (apiKey = "") then
    (mkRun w 0
       ["Error: OPENAI_API_KEY environment variable not set. Please set it to run the tests."],
     None)
  else
    let c := NewCachingClient client true cacheSizeLimit in
    match forEach (testModel c) models (mkRun w 0 []) with
    | (st, Some p) => (st, Some p)
    | (st, None) =>
        if keepCache then (st, None)
        else
          let '(w', err) := clearCache (envs (calls st)) (world st) in
          (mkRun w' (S (calls st))
             (lines st ++ assert_NoError err "Failed to clear cache"),
           None)
    end.

End Callers.

(** The assertions of a round of the test, given what a fetch without error
    returned. *)
Definition roundChecks (i : nat) (cached : bool) : list string :=
  assert_NoError None "Received unexpected error"
  ++ (if (i =? 0)%nat
      then assert_False cached "First run should be a cache miss"
      else assert_True cached "Subsequent runs should use cache").

(** What [main] prints for a prompt, given what the fetch returned. *)
Definition printed (prompt response : string) (cached : bool)
    : list string :=
  [(if cached then "Cached response for prompt '"
    else "API response for prompt '")
   +:+ prompt +:+ "': " +:+ response].

(** The cache file decodes to [cache], or there is none and [cache] is the
    empty cache: what [loadCache] returns when the read does not fail. *)
Definition persisted (w : World) (cache : Cache) : Prop :=
  ∀ env, read_fault env = None → loadCache env w = inr cache.

(** The requests [main] and the test go through, in their order. *)
Definition requestsOf (maxTokens : Z) : list ChatCompletionRequest :=
  flat_map (λ model, (λ prompt, newRequest model prompt maxTokens) <$> prompts)
    models.

(** The bytes of the answers to a list of requests. *)
Definition payloadBytes {Request} (reply : Request → string)
    (rs : list Request) : Z :=
  foldr (λ r acc, len (reply r) + acc) 0 rs.

(** What [main] prints when every answer comes from the remote call
    ([cached = false]) or every answer comes from the cache. *)
Definition transcript (reply : ChatCompletionRequest → string) (cached : bool)
    : list string :=
  flat_map
    (λ model,
       ("Testing model: " +:+ model)
       :: ((λ prompt,
              (if cached then "Cached response for prompt '"
               else "API response for prompt '")
              +:+ prompt +:+ "': " +:+ reply (newRequest model prompt 100))
             <$> prompts))
    models.

(** The persisted cache, of total size [total], holds the answer to every
    request in [known] under its fingerprint, and nothing under the
    fingerprint of any other request of [requests]. *)
Definition holds {Request} (hashOf reply : Request → string)
    (requests known : list Request) (total : Z) (w : World) : Prop :=
  ∃ m, persisted w (mkCache (Table m)) ∧ totalSize m = total ∧
       (∀ r, r ∈ known → ∃ e, m !! hashOf r = Some e ∧ Response e = reply r) ∧
       (∀ r, r ∈ requests → r ∉ known → m !! hashOf r = None).

(** ** Sequences of insertions *)

(** Lines 128 to 135 of [getResponse] on an allocated map: the entry is
    assigned under its hash and the eviction policy runs. *)
Definition insertThenEvict {Request} (rt : Runtime) (c : CachingClient Request)
    (m : gmap string CacheEntry) (new : string * CacheEntry)
    : gmap string CacheEntry :=
  store (evictIfNeeded rt c (mkCache (Table (<[new.1 := new.2]> m)))).1.

(** One insertion after another, each under the runtime's choices of its
    own call. *)
Definition insertions {Request} (c : CachingClient Request)
    (steps : list (Runtime * (string * CacheEntry)))
    (m : gmap string CacheEntry) : gmap string CacheEntry :=
  foldl (λ m step, insertThenEvict step.1 c m step.2) m steps.

(** ** Sample values

    A client whose remote call answers every prompt, and the three entries
    of the scenario with a limit of 100 bytes: 40 bytes each, written at
    times 1, 2 and 3. *)

Definition sampleClient (enabled : bool) (limit : Z) : CachingClient string :=
  mkCachingClient (λ prompt, inr ["reply to " +:+ prompt]) enabled limit.

(** Stand-ins for the two library functions, to run the fetch operation on
    sample requests: the prompt's own bytes as its serialization, and the
    identity in place of SHA-256. *)
Definition sampleMarshal (req : string) : error + list byte :=
  inr (String.list_byte_of_string req).

Definition sampleDigest (data : list byte) : list byte := data.

Definition sampleHash (req : string) : string :=
  hex_EncodeToString (sampleDigest (String.list_byte_of_string req)).

(** A client whose remote call always fails. *)
Definition failingClient (limit : Z) : CachingClient string :=
  mkCachingClient (λ _, inl (APIError "rate limit exceeded")) true limit.

Definition forty (c : string) : string :=
  c +:+ c +:+ c +:+ c +:+ c +:+ c +:+ c +:+ c +:+ c +:+ c +:+
  c +:+ c +:+ c +:+ c +:+ c +:+ c +:+ c +:+ c +:+ c +:+ c +:+
  c +:+ c +:+ c +:+ c +:+ c +:+ c +:+ c +:+ c +:+ c +:+ c +:+
  c +:+ c +:+ c +:+ c +:+ c +:+ c +:+ c +:+ c +:+ c +:+ c.

Definition entryA : CacheEntry := mkCacheEntry (forty "a") 1.
Definition entryB : CacheEntry := mkCacheEntry (forty "b") 2.
Definition entryC : CacheEntry := mkCacheEntry (forty "c") 3.

(** A cache that already holds the answer to one prompt. *)
Definition cacheJoke : Cache :=
  mkCache (Table {[ sampleHash "Tell me a joke."
                    := mkCacheEntry "Why did the gopher cross the road?" 4 ]}).

Definition cacheABC : Cache :=
  mkCache (Table (<["hashC" := entryC]> (<["hashA" := entryA]>
                   (<["hashB" := entryB]> ∅)))).

(** A client whose remote call succeeds without any choice. *)
Definition silentClient (enabled : bool) (limit : Z) : CachingClient string :=
  mkCachingClient (λ _, inr []) enabled limit.

(** A world whose cache file does not parse. *)
Definition corruptWorld : World :=
  mkWorld (File (Malformed (JSONError "unexpected end of JSON input"))) [].

(** Stand-ins to run the callers: a serialization that writes the model
    and the message contents, the fingerprint it gives under
    [sampleDigest], a remote call that answers every request, and
    surroundings in which the [n]-th call happens at time [n] and no system
    call fails. *)
Definition sampleMarshalChat (r : ChatCompletionRequest) : error + list byte :=
  inr (String.list_byte_of_string
         (Model r +:+ "/" +:+ String.concat "/" (Content <$> Messages r))).

Definition sampleHashChat (r : ChatCompletionRequest) : string :=
  hex_EncodeToString
    (sampleDigest
       (String.list_byte_of_string
          (Model r +:+ "/" +:+ String.concat "/" (Content <$> Messages r)))).

Definition sampleReply (r : ChatCompletionRequest) : string :=
  "reply to " +:+ String.concat "/" (Content <$> Messages r).

Definition sampleChatClient (r : ChatCompletionRequest) : error + list string :=
  inr [sampleReply r].

Definition sampleEnvs (n : nat) : Env := quietEnv stableRuntime (Z.of_nat n).

(** * Properties *)

(** ** Arithmetic on [int64] *)

Lemma wrap_small z : Int64.in_range z → Int64.wrap z = z.
Proof.
  unfold Int64.in_range, Int64.wrap, Int64.min_int, Int64.max_int. intros Hz.
  rewrite Z.mod_small by lia. lia.
Qed.

Lemma wrap_wrap_add a b : Int64.wrap (Int64.wrap a + b) = Int64.wrap (a + b).
Proof.
  unfold Int64.wrap.
  replace (a + 2 ^ 63 + b) with (a + b + 2 ^ 63) by lia.
  replace ((a + 2 ^ 63) mod 2 ^ 64 - 2 ^ 63 + b + 2 ^ 63)
    with ((a + 2 ^ 63) mod 2 ^ 64 + b) by lia.
  rewrite Zplus_mod_idemp_l. do 2 f_equal. lia.
Qed.

(** ** Sizes *)

Lemma len_nonneg s : 0 ≤ len s.
Proof. unfold len. lia. Qed.

#[global] Instance sizes_perm : Proper ((≡ₚ) ==> (=)) sizes.
Proof.
  intros l1 l2 Hp. induction Hp; simpl; lia.
Qed.

Lemma sizes_nonneg l : 0 ≤ sizes l.
Proof.
  induction l as [|he l IH]; simpl; [lia|].
  pose proof (len_nonneg (Response he.2)). lia.
Qed.

Lemma totalSize_nonneg m : 0 ≤ totalSize m.
Proof. apply sizes_nonneg. Qed.

Lemma totalSize_empty : totalSize ∅ = 0.
Proof. unfold totalSize. by rewrite map_to_list_empty. Qed.

Lemma totalSize_singleton k e : totalSize {[k := e]} = len (Response e).
Proof. unfold totalSize. rewrite map_to_list_singleton. simpl. lia. Qed.

Lemma totalSize_delete m k e :
  m !! k = Some e → totalSize m = len (Response e) + totalSize (delete k m).
Proof.
  intros Hk. unfold totalSize.
  by rewrite <- (map_to_list_delete m k e Hk).
Qed.

Lemma totalSize_insert_fresh m k e :
  m !! k = None → totalSize (<[k := e]> m) = len (Response e) + totalSize m.
Proof.
  intros Hk. unfold totalSize. by rewrite (map_to_list_insert m k e Hk).
Qed.

Lemma totalSize_delete_le m k : totalSize (delete k m) ≤ totalSize m.
Proof.
  destruct (m !! k) as [e|] eqn:Hk.
  - rewrite (totalSize_delete m k e Hk).
    pose proof (len_nonneg (Response e)). lia.
  - by rewrite delete_id.
Qed.

Lemma totalSize_insert_le m k e :
  totalSize (<[k := e]> m) ≤ len (Response e) + totalSize m.
Proof.
  rewrite <- insert_delete_eq.
  rewrite totalSize_insert_fresh by apply lookup_delete_eq.
  pose proof (totalSize_delete_le m k). lia.
Qed.

(** The first loop computes the total, wrapped; the order of the visit does
    not matter. *)
Lemma foldl_sizes_wrap a l :
  foldl (λ cacheSize he, Int64.add cacheSize (len (Response he.2)))
    (Int64.wrap a) l = Int64.wrap (a + sizes l).
Proof.
  revert a. induction l as [|he l IH]; intros a; simpl.
  - f_equal. lia.
  - unfold Int64.add at 2. rewrite wrap_wrap_add, IH. f_equal. lia.
Qed.

Lemma sumSizes_wrap l : sumSizes l = Int64.wrap (sizes l).
Proof.
  unfold sumSizes. change 0 with (Int64.wrap 0) at 1.
  by rewrite foldl_sizes_wrap.
Qed.

Lemma sumSizes_range rt m :
  RuntimeOk rt → fitsInt64 m → sumSizes (range_sizes rt m) = totalSize m.
Proof.
  intros Hrt Hfit. rewrite sumSizes_wrap, (range_sizes_perm rt Hrt m).
  apply wrap_small. pose proof (totalSize_nonneg m).
  unfold fitsInt64, totalSize, Int64.in_range, Int64.min_int in *. lia.
Qed.

(** ** The ranked slice *)

Lemma ranked_head h t es m :
  (h, t) :: es ≡ₚ ranked m →
  ∃ e, m !! h = Some e ∧ Timestamp e = t ∧ es ≡ₚ ranked (delete h m).
Proof.
  intros Hp.
  assert (Hin : (h, t) ∈ ranked m) by (rewrite <- Hp; left).
  apply list_elem_of_fmap in Hin as ([h' e] & Heq & Hin). simpl in Heq.
  injection Heq as Hh Ht. subst h' t.
  apply elem_of_map_to_list in Hin.
  exists e. split_and!; [done..|].
  apply (Permutation_cons_inv (a := (h, Timestamp e))).
  rewrite Hp. unfold ranked.
  by rewrite <- (map_to_list_delete m h e Hin).
Qed.

Lemma ranked_nil m : [] ≡ₚ ranked m → m = ∅.
Proof.
  intros Hp. symmetry in Hp. apply Permutation_nil_r in Hp.
  apply fmap_nil_inv in Hp. by apply map_to_list_empty_iff.
Qed.

Lemma ranked_lookup m k e : m !! k = Some e → (k, Timestamp e) ∈ ranked m.
Proof.
  intros Hk. apply list_elem_of_fmap. exists (k, e).
  split; [done|]. by apply elem_of_map_to_list.
Qed.

Lemma deleteAll_cons k ks m : deleteAll (k :: ks) m = deleteAll ks (delete k m).
Proof. done. Qed.

Lemma deleteAll_empty ks : deleteAll ks ∅ = ∅.
Proof.
  induction ks as [|k ks IH]; [done|].
  by rewrite deleteAll_cons, delete_empty.
Qed.

Lemma totalSize_deleteAll_le ks m : totalSize (deleteAll ks m) ≤ totalSize m.
Proof.
  revert m. induction ks as [|k ks IH]; intros m; [reflexivity|].
  rewrite deleteAll_cons. pose proof (IH (delete k m)).
  pose proof (totalSize_delete_le m k). lia.
Qed.

(** What is left of the ranked slice ranks what is left of the map. *)
Lemma ranked_drop n es m :
  es ≡ₚ ranked m → drop n es ≡ₚ ranked (deleteAll (take n es).*1 m).
Proof.
  revert es m. induction n as [|n IH]; intros es m Hp; [done|].
  destruct es as [|[h t] es]; [done|].
  apply ranked_head in Hp as (e & _ & _ & Hp).
  change (drop n es ≡ₚ ranked (deleteAll (take n es).*1 (delete h m))).
  by apply IH.
Qed.

(** ** The eviction loop *)

(** With the running size equal to the true total, the loop deletes a prefix
    of the slice: the shortest one that brings the total to the limit, or
    the whole slice. *)
Lemma evictLoop_prefix limit es m :
  es ≡ₚ ranked m → fitsInt64 m →
  ∃ n, (n ≤ length es)%nat ∧
    evictLoop limit es (totalSize m) (Table m)
      = Table (deleteAll (take n es).*1 m) ∧
    (∀ j, (j < n)%nat → limit < totalSize (deleteAll (take j es).*1 m)) ∧
    (totalSize (deleteAll (take n es).*1 m) ≤ limit ∨ n = length es).
Proof.
  revert m. induction es as [|[h t] es IH]; intros m Hp Hfit.
  - exists 0%nat. split_and!; [done|done|intros; lia|by right].
  - simpl evictLoop. destruct (Z.ltb_spec limit (totalSize m)) as [Hlt|Hge].
    + apply ranked_head in Hp as (e & Hh & _ & Hp).
      assert (Hsub : Int64.sub (totalSize m)
                (len (Response (go_index (Table m) h)))
              = totalSize (delete h m)).
      { unfold go_index, go_lookup. simpl. rewrite Hh. simpl.
        rewrite (totalSize_delete m h e Hh). unfold Int64.sub.
        replace (len (Response e) + totalSize (delete h m) - len (Response e))
          with (totalSize (delete h m)) by lia.
        apply wrap_small. pose proof (totalSize_nonneg (delete h m)).
        pose proof (len_nonneg (Response e)).
        unfold fitsInt64 in Hfit. rewrite (totalSize_delete m h e Hh) in Hfit.
        unfold Int64.in_range, Int64.min_int, Int64.max_int in *. lia. }
      rewrite Hsub. simpl go_delete.
      assert (Hfit' : fitsInt64 (delete h m)).
      { unfold fitsInt64 in *. pose proof (totalSize_delete_le m h). lia. }
      destruct (IH (delete h m) Hp Hfit') as (n & Hn & Hrun & Hover & Hstop).
      exists (S n). split_and!.
      * simpl. lia.
      * done.
      * intros [|j] Hj; [done|].
        change (limit < totalSize (deleteAll (take j es).*1 (delete h m))).
        apply Hover. lia.
      * change (totalSize (deleteAll (take n es).*1 (delete h m)) ≤ limit
                ∨ S n = S (length es)).
        destruct Hstop as [Hstop| ->]; [by left|by right].
    + exists 0%nat. split_and!; [simpl; lia|done|intros; lia|by left].
Qed.

Lemma byTimestamp_le (a b : string * Time) : byTimestamp b a = false ↔ a.2 ≤ b.2.
Proof. unfold byTimestamp, Before. rewrite Z.ltb_ge. done. Qed.

Lemma sorted_by_le es :
  sorted_by byTimestamp es →
  StronglySorted (λ a b : string * Time, a.2 ≤ b.2) es.
Proof.
  unfold sorted_by. induction 1 as [|a l _ IH Hall]; constructor; [done|].
  eapply Forall_impl; [exact Hall|]. intros b. apply byTimestamp_le.
Qed.

(** ** [evictIfNeeded] on an allocated map *)

(** The slice splits into what was evicted and the rest. *)
Lemma evictIfNeeded_split {Request} rt (c : CachingClient Request) m :
  RuntimeOk rt → fitsInt64 m →
  ∃ evicted rest,
    evicted ++ rest ≡ₚ ranked m ∧
    sorted_by byTimestamp (evicted ++ rest) ∧
    evictIfNeeded rt c (mkCache (Table m))
      = (mkCache (Table (deleteAll evicted.*1 m)), None) ∧
    (∀ j, (j < length evicted)%nat →
       cacheSizeLimit c < totalSize (deleteAll (take j evicted).*1 m)) ∧
    (totalSize (deleteAll evicted.*1 m) ≤ cacheSizeLimit c ∨ rest = []) ∧
    (totalSize m ≤ cacheSizeLimit c → evicted = []).
Proof.
  intros Hrt Hfit.
  set (es := sort_Slice rt byTimestamp
               ((λ he : string * CacheEntry, (he.1, Timestamp he.2))
                  <$> range_entries rt m)).
  assert (Hes : es ≡ₚ ranked m).
  { unfold es, ranked.
    by rewrite (sort_Slice_perm rt Hrt), (range_entries_perm rt Hrt). }
  assert (Hsorted : sorted_by byTimestamp es) by apply (sort_Slice_sorted rt Hrt).
  unfold evictIfNeeded. simpl go_range. cbv zeta.
  rewrite (sumSizes_range rt m Hrt Hfit). fold es.
  destruct (Z.leb_spec (totalSize m) (cacheSizeLimit c)) as [Hle|Hgt].
  - exists [], es. split_and!; try done.
    + simpl. intros; lia.
    + by left.
  - destruct (evictLoop_prefix (cacheSizeLimit c) es m Hes Hfit)
      as (n & Hn & Hrun & Hover & Hstop).
    exists (take n es), (drop n es). rewrite take_drop. split_and!; try done.
    + simpl Responses. by rewrite Hrun.
    + intros j Hj. rewrite length_take in Hj.
      rewrite take_take. replace (j `min` n)%nat with j by lia.
      apply Hover. lia.
    + destruct Hstop as [Hstop| ->]; [by left|right; apply drop_all].
    + intros Hle. lia.
Qed.

(** Every evicted entry was in the map, under its own hash. *)
Lemma evicted_lookup evicted rest m h t :
  evicted ++ rest ≡ₚ ranked m → (h, t) ∈ evicted →
  ∃ e, m !! h = Some e ∧ Timestamp e = t.
Proof.
  intros Hp Hin.
  assert (Hin' : (h, t) ∈ ranked m) by (rewrite <- Hp; set_solver).
  apply list_elem_of_fmap in Hin' as ([h' e] & Heq & Hin').
  injection Heq as Hh Ht. subst h' t.
  exists e. split; [|done]. by apply elem_of_map_to_list.
Qed.

Lemma ranked_NoDup m : NoDup (ranked m).*1.
Proof.
  unfold ranked. rewrite <- list_fmap_compose.
  apply (NoDup_fst_map_to_list m).
Qed.

Lemma evicted_NoDup evicted rest m :
  evicted ++ rest ≡ₚ ranked m → NoDup evicted.*1.
Proof.
  intros Hp. pose proof (ranked_NoDup m) as Hnd.
  rewrite <- Hp, fmap_app in Hnd. by apply NoDup_app in Hnd as (? & _ & _).
Qed.

Lemma rest_ranked evicted rest m :
  evicted ++ rest ≡ₚ ranked m → rest ≡ₚ ranked (deleteAll evicted.*1 m).
Proof.
  intros Hp. pose proof (ranked_drop (length evicted) _ _ Hp) as Hd.
  by rewrite drop_app_length, take_app_length in Hd.
Qed.

(** Nothing that stays is older than anything that went. *)
Lemma evicted_oldest evicted rest m h t k e :
  evicted ++ rest ≡ₚ ranked m → sorted_by byTimestamp (evicted ++ rest) →
  (h, t) ∈ evicted → deleteAll evicted.*1 m !! k = Some e →
  t ≤ Timestamp e.
Proof.
  intros Hp Hs Hin Hk.
  apply ranked_lookup in Hk. rewrite <- (rest_ranked _ _ _ Hp) in Hk.
  apply sorted_by_le in Hs.
  apply (StronglySorted_app_1_elem_of _ _ _ (h, t) (k, Timestamp e) Hs Hin Hk).
Qed.

Lemma rest_nil_empty evicted m :
  evicted ++ [] ≡ₚ ranked m → deleteAll evicted.*1 m = ∅.
Proof. intros Hp. apply rest_ranked in Hp. by apply ranked_nil. Qed.

(** On the nil map there is nothing to evict. *)
Lemma evictIfNeeded_nil {Request} rt (c : CachingClient Request) :
  RuntimeOk rt → evictIfNeeded rt c (mkCache NilMap) = (mkCache NilMap, None).
Proof.
  intros Hrt. unfold evictIfNeeded. simpl.
  destruct (sumSizes [] <=? cacheSizeLimit c); [done|].
  pose proof (sort_Slice_perm rt Hrt byTimestamp []) as Hp.
  apply Permutation_nil_r in Hp. by rewrite Hp.
Qed.

(** ** The runtimes to compute with are among those Go allows *)

#[global] Instance notAfter_byTimestamp_trans : Transitive (notAfter byTimestamp).
Proof.
  intros a b d. unfold notAfter. rewrite !byTimestamp_le. lia.
Qed.

#[global] Instance notAfter_byTimestamp_total : Total (notAfter byTimestamp).
Proof.
  intros a b. unfold notAfter. rewrite !byTimestamp_le. lia.
Qed.

Lemma stableRuntime_ok : RuntimeOk stableRuntime.
Proof.
  split; simpl; try done.
  - intros less l. apply merge_sort_Permutation.
  - intros l. apply (StronglySorted_merge_sort (notAfter byTimestamp)).
Qed.

Lemma reverseRuntime_ok : RuntimeOk reverseRuntime.
Proof.
  split; simpl.
  - intros m. apply reverse_Permutation.
  - intros m. apply reverse_Permutation.
  - intros less l. apply merge_sort_Permutation.
  - intros l. apply (StronglySorted_merge_sort (notAfter byTimestamp)).
Qed.

(** ** One insertion, and many *)

(** An insertion that leaves the total at or under the limit evicts
    nothing. *)
Lemma small_payload_survives {Request} rt (c : CachingClient Request) m h e :
  RuntimeOk rt → fitsInt64 (<[h := e]> m) →
  totalSize (<[h := e]> m) ≤ cacheSizeLimit c →
  store (evictIfNeeded rt c (mkCache (Table (<[h := e]> m)))).1 !! h = Some e.
Proof.
  intros Hrt Hfit Hle.
  destruct (evictIfNeeded_split rt c _ Hrt Hfit)
    as (evicted & rest & _ & _ & -> & _ & _ & Hnone).
  rewrite (Hnone Hle). apply lookup_insert_eq.
Qed.

Lemma insertThenEvict_bound {Request} rt (c : CachingClient Request) m new :
  RuntimeOk rt → fitsInt64 (<[new.1 := new.2]> m) →
  (totalSize (insertThenEvict rt c m new) ≤ cacheSizeLimit c
   ∨ insertThenEvict rt c m new = ∅) ∧
  totalSize (insertThenEvict rt c m new) ≤ totalSize (<[new.1 := new.2]> m).
Proof.
  intros Hrt Hfit. unfold insertThenEvict.
  destruct (evictIfNeeded_split rt c _ Hrt Hfit)
    as (evicted & rest & Hp & _ & -> & _ & Hstop & _).
  simpl. unfold store. simpl. split.
  - destruct Hstop as [Hstop| ->]; [by left|].
    right. by apply rest_nil_empty.
  - apply totalSize_deleteAll_le.
Qed.

Lemma insertions_snoc {Request} (c : CachingClient Request) steps step m :
  insertions c (steps ++ [step]) m
  = insertThenEvict step.1 c (insertions c steps m) step.2.
Proof. unfold insertions. by rewrite foldl_snoc. Qed.

Lemma sizes_app l1 l2 : sizes (l1 ++ l2) = sizes l1 + sizes l2.
Proof. induction l1 as [|he l1 IH]; simpl; lia. Qed.

Lemma insertions_growth {Request} (c : CachingClient Request) steps m :
  Forall (λ step, RuntimeOk step.1) steps →
  totalSize m + sizes steps.*2 ≤ Int64.max_int →
  totalSize (insertions c steps m) ≤ totalSize m + sizes steps.*2.
Proof.
  induction steps as [|[rt new] steps IH] using rev_ind; intros Hok Hfit.
  - simpl. lia.
  - rewrite insertions_snoc. simpl.
    apply Forall_app in Hok as [Hok Hrt]. apply Forall_inv in Hrt.
    simpl in Hrt. rewrite fmap_app, sizes_app in *. simpl in *.
    pose proof (sizes_nonneg steps.*2). pose proof (len_nonneg (Response new.2)).
    specialize (IH Hok ltac:(lia)).
    pose proof (totalSize_insert_le (insertions c steps m) new.1 new.2).
    assert (Hfit' : fitsInt64 (<[new.1 := new.2]> (insertions c steps m))).
    { unfold fitsInt64. lia. }
    destruct (insertThenEvict_bound rt c _ new Hrt Hfit') as [_ Hle]. lia.
Qed.

(** ** The eviction policy *)

(** C2.  With [total] the sum of the payload lengths over all entries: when
    [total <= limit] the cache is returned as it was; otherwise the entries
    in [evicted], and no others, are deleted, where [evicted] lists entries
    of the cache in ascending timestamp order, nothing that stays is older
    than anything evicted, the total was still over the limit before each
    deletion, and at the end the total is at or under the limit or no entry
    remains. *)
Theorem evictIfNeeded_oldest_first {Request} rt (c : CachingClient Request)
    (cache : Cache) :
  RuntimeOk rt → fitsInt64 (store cache) →
  let limit := cacheSizeLimit c in
  let before := store cache in
  let after := store (evictIfNeeded rt c cache).1 in
  (totalSize before ≤ limit → (evictIfNeeded rt c cache).1 = cache) ∧
  (limit < totalSize before →
   ∃ evicted : list (string * Time),
     NoDup evicted.*1 ∧
     (∀ h t, (h, t) ∈ evicted → ∃ e, before !! h = Some e ∧ Timestamp e = t) ∧
     after = deleteAll evicted.*1 before ∧
     StronglySorted (λ a b : string * Time, a.2 ≤ b.2) evicted ∧
     (∀ h t k e, (h, t) ∈ evicted → after !! k = Some e → t ≤ Timestamp e) ∧
     (∀ j, (j < length evicted)%nat →
        limit < totalSize (deleteAll (take j evicted).*1 before)) ∧
     (totalSize after ≤ limit ∨ after = ∅)).
Proof.
  intros Hrt Hfit limit before after.
  destruct cache as [[|m]].
  - subst before after. rewrite (evictIfNeeded_nil rt c Hrt). simpl.
    split; [done|]. unfold store. simpl. rewrite totalSize_empty. intros Hlt.
    exists []. split_and!.
    + constructor.
    + intros h t Hin. by apply elem_of_nil in Hin.
    + done.
    + constructor.
    + intros h t k e Hin. by apply elem_of_nil in Hin.
    + simpl. intros; lia.
    + by right.
  - unfold store in before, after, Hfit. simpl in before, Hfit.
    destruct (evictIfNeeded_split rt c m Hrt Hfit)
      as (evicted & rest & Hp & Hs & Hrun & Hover & Hstop & Hnone).
    subst after. rewrite Hrun. simpl. subst before limit. split.
    + intros Hle. by rewrite (Hnone Hle).
    + intros Hlt. exists evicted. split_and!.
      * by eapply evicted_NoDup.
      * intros h t. by eapply evicted_lookup.
      * done.
      * apply sorted_by_le in Hs. by apply StronglySorted_app_1_l in Hs.
      * intros h t k e. by eapply evicted_oldest.
      * done.
      * destruct Hstop as [Hstop| ->]; [by left|].
        right. by apply rest_nil_empty.
Qed.

Lemma evictIfNeeded_oldest_first_witness :
  let c := sampleClient true 100 in
  let after := store (evictIfNeeded stableRuntime c cacheABC).1 in
  (totalSize (store cacheABC) ≤ 100 →
   (evictIfNeeded stableRuntime c cacheABC).1 = cacheABC) ∧
  (100 < totalSize (store cacheABC) →
   ∃ evicted : list (string * Time),
     NoDup evicted.*1 ∧
     (∀ h t, (h, t) ∈ evicted →
        ∃ e, store cacheABC !! h = Some e ∧ Timestamp e = t) ∧
     after = deleteAll evicted.*1 (store cacheABC) ∧
     StronglySorted (λ a b : string * Time, a.2 ≤ b.2) evicted ∧
     (∀ h t k e, (h, t) ∈ evicted → after !! k = Some e → t ≤ Timestamp e) ∧
     (∀ j, (j < length evicted)%nat →
        100 < totalSize (deleteAll (take j evicted).*1 (store cacheABC))) ∧
     (totalSize after ≤ 100 ∨ after = ∅)).
Proof.
  apply (evictIfNeeded_oldest_first stableRuntime (sampleClient true 100)
           cacheABC stableRuntime_ok).
  vm_compute. discriminate.
Defined.

(** The scenario of the specification: A, B and C of 40 bytes each under a
    limit of 100; A, the oldest, goes and B and C stay. *)
Example evictIfNeeded_scenario :
  store (evictIfNeeded stableRuntime (sampleClient true 100) cacheABC).1
  = <["hashC" := entryC]> (<["hashB" := entryB]> ∅).
Proof. vm_compute. reflexivity. Qed.

(** C1, as the code has it.  A cache whose only entry is larger than the
    limit loses that entry: the eviction policy leaves it empty. *)
Theorem evictIfNeeded_single_oversized {Request} rt (c : CachingClient Request)
    (cache : Cache) h e :
  RuntimeOk rt → fitsInt64 (store cache) →
  store cache = {[h := e]} →
  cacheSizeLimit c < len (Response e) →
  store (evictIfNeeded rt c cache).1 = ∅.
Proof.
  intros Hrt Hfit Hone Hbig.
  destruct cache as [[|m]]; unfold store in *; simpl in *.
  { symmetry in Hone. by destruct (map_non_empty_singleton h e). }
  subst m.
  destruct (evictIfNeeded_split rt c _ Hrt Hfit)
    as (evicted & rest & Hp & _ & -> & Hover & Hstop & _).
  simpl. destruct Hstop as [Hstop| ->]; [|by apply rest_nil_empty].
  destruct evicted as [|[h' t] evicted].
  - change (totalSize {[h := e]} ≤ cacheSizeLimit c) in Hstop.
    rewrite totalSize_singleton in Hstop. lia.
  - destruct (evicted_lookup _ _ _ h' t Hp ltac:(left)) as (e' & He' & _).
    apply lookup_singleton_Some in He' as [<- <-].
    change (deleteAll evicted.*1 (delete h {[h := e]}) = ∅).
    rewrite delete_singleton_eq. apply deleteAll_empty.
Qed.

Lemma evictIfNeeded_single_oversized_witness :
  store (evictIfNeeded stableRuntime (sampleClient true 2)
           (mkCache (Table {["k" := mkCacheEntry "abc" 1]}))).1 = ∅.
Proof.
  apply (evictIfNeeded_single_oversized stableRuntime (sampleClient true 2)
           (mkCache (Table {["k" := mkCacheEntry "abc" 1]}))
           "k" (mkCacheEntry "abc" 1) stableRuntime_ok).
  - vm_compute. discriminate.
  - reflexivity.
  - reflexivity.
Defined.

(** C1, as stated, fails: the only entry, of 3 bytes under a limit of 2, is
    not retained. *)
Lemma single_oversized_not_retained :
  let c := sampleClient true 2 in
  let cache := mkCache (Table {["k" := mkCacheEntry "abc" 1]}) in
  size (store cache) = 1%nat ∧
  cacheSizeLimit c < len (Response (mkCacheEntry "abc" 1)) ∧
  store (evictIfNeeded stableRuntime c cache).1 !! "k" = None ∧
  store (evictIfNeeded stableRuntime c cache).1 = ∅.
Proof. vm_compute. split_and!; reflexivity. Qed.

(** For any limit, negative ones included: after insertions, each followed
    by the eviction policy (at least one of them, or none from the empty
    cache), the total payload size is at or under the limit or no entry
    remains; under a limit that is not negative the total is at or under
    the limit; and a cache whose one entry is larger than the limit is
    never what is left. *)
Lemma insertions_size_bound {Request} (c : CachingClient Request)
    (steps : list (Runtime * (string * CacheEntry)))
    (m0 : gmap string CacheEntry) :
  Forall (λ step, RuntimeOk step.1) steps →
  totalSize m0 + sizes steps.*2 ≤ Int64.max_int →
  steps ≠ [] ∨ m0 = ∅ →
  let limit := cacheSizeLimit c in
  let m := insertions c steps m0 in
  (totalSize m ≤ limit ∨ m = ∅) ∧
  (0 ≤ limit → totalSize m ≤ limit) ∧
  ¬ (∃ k e, m = {[k := e]} ∧ limit < len (Response e)).
Proof.
  intros Hok Hfit Hstart limit m.
  assert (Hinv : totalSize m ≤ limit ∨ m = ∅).
  { subst m. destruct steps as [|step steps _] using rev_ind.
    - destruct Hstart as [?| ->]; [done|by right].
    - rewrite insertions_snoc.
      apply Forall_app in Hok as [Hok Hrt]. apply Forall_inv in Hrt.
      rewrite fmap_app, sizes_app in Hfit. simpl in Hfit.
      pose proof (insertions_growth c steps m0 Hok) as Hgrow.
      pose proof (sizes_nonneg steps.*2).
      pose proof (len_nonneg (Response step.2.2)).
      specialize (Hgrow ltac:(lia)).
      pose proof (totalSize_insert_le (insertions c steps m0)
                    step.2.1 step.2.2).
      apply insertThenEvict_bound; [done|]. unfold fitsInt64. lia. }
  split_and!.
  - done.
  - intros Hlimit. destruct Hinv as [?|Hempty]; [done|].
    rewrite Hempty, totalSize_empty. done.
  - intros (k & e & Hone & Hbig). destruct Hinv as [Hle|Hempty].
    + rewrite Hone, totalSize_singleton in Hle. lia.
    + rewrite Hone in Hempty. by destruct (map_non_empty_singleton k e).
Qed.

(** C3.  Under a limit that is not negative, after any sequence of
    insertions, each followed by the eviction policy (at least one
    insertion, or none from the empty cache), the total payload size is at
    or under the limit, or exactly one entry remains whose payload alone
    exceeds the limit. *)
Theorem insertions_within_limit {Request} (c : CachingClient Request)
    (steps : list (Runtime * (string * CacheEntry)))
    (m0 : gmap string CacheEntry) :
  Forall (λ step, RuntimeOk step.1) steps →
  totalSize m0 + sizes steps.*2 ≤ Int64.max_int →
  steps ≠ [] ∨ m0 = ∅ →
  0 ≤ cacheSizeLimit c →
  let limit := cacheSizeLimit c in
  let m := insertions c steps m0 in
  totalSize m ≤ limit ∨ ∃ k e, m = {[k := e]} ∧ limit < len (Response e).
Proof.
  intros Hok Hfit Hstart Hlimit limit m.
  destruct (insertions_size_bound c steps m0 Hok Hfit Hstart)
    as (_ & Hbound & _).
  left. by apply Hbound.
Qed.

Lemma insertions_within_limit_witness :
  let c := sampleClient true 100 in
  let m := insertions c [(stableRuntime, ("hashA", entryA));
                         (reverseRuntime, ("hashB", entryB));
                         (stableRuntime, ("hashC", entryC))] ∅ in
  totalSize m ≤ 100 ∨ ∃ k e, m = {[k := e]} ∧ 100 < len (Response e).
Proof.
  apply (insertions_within_limit (sampleClient true 100)
           [(stableRuntime, ("hashA", entryA));
            (reverseRuntime, ("hashB", entryB));
            (stableRuntime, ("hashC", entryC))] ∅).
  - repeat constructor; simpl;
      first [apply stableRuntime_ok | apply reverseRuntime_ok].
  - vm_compute. discriminate.
  - left. discriminate.
  - vm_compute. discriminate.
Defined.

(** Why the limit must not be negative there: under a limit of -1 one
    insertion leaves the cache empty, so its total, 0, is over the limit,
    and it is not a cache of one entry. *)
Lemma negative_limit_breaks_size_bound :
  let c := sampleClient true (-1) in
  let m := insertions c [(stableRuntime, ("k", mkCacheEntry "abc" 1))] ∅ in
  ¬ (totalSize m ≤ cacheSizeLimit c
     ∨ ∃ k e, m = {[k := e]} ∧ cacheSizeLimit c < len (Response e)).
Proof.
  assert (Hm : insertions (sampleClient true (-1))
                 [(stableRuntime, ("k", mkCacheEntry "abc" 1))] ∅ = ∅)
    by (vm_compute; reflexivity).
  cbv zeta. rewrite Hm. intros [Hle|(k & e & Hone & _)].
  - rewrite totalSize_empty in Hle. simpl in Hle. lia.
  - symmetry in Hone. by destruct (map_non_empty_singleton k e).
Qed.

(** C10.  [evictIfNeeded] returns a nil error whatever the cache and the
    limit, and no call of [getResponse] ends at the [return] on line 134,
    the one taken when eviction fails. *)
Theorem evictIfNeeded_never_fails {Request} :
  (∀ rt (c : CachingClient Request) cache, (evictIfNeeded rt c cache).2 = None) ∧
  (∀ json_Marshal sha256_Sum256 (c : CachingClient Request) env req w
     w' response cached err,
     getResponse json_Marshal sha256_Sum256 c env req w
     ≠ (w', Return 134 response cached err)).
Proof.
  assert (Hnil : ∀ rt (c : CachingClient Request) cache,
            (evictIfNeeded rt c cache).2 = None).
  { intros rt c cache. unfold evictIfNeeded.
    by destruct (_ <=? _). }
  split; [exact Hnil|].
  intros json_Marshal sha256_Sum256 c env req w w' response cached err.
  unfold getResponse.
  repeat (case_match; try discriminate).
  all: try (intros [= ? ?]; discriminate).
  all: match goal with
       | H : evictIfNeeded ?rt ?c ?cache = (_, Some _) |- _ =>
           pose proof (Hnil rt c cache) as Hn; rewrite H in Hn; discriminate
       end.
Qed.

(** ** Loading, saving and clearing *)

Lemma saveCache_ok env cache w :
  mkdir_fault env = None → write_fault env = None →
  saveCache env cache w
  = (mkWorld (File (Encodes cache)) (cache :: written w), None).
Proof.
  intros Hmk Hwr. unfold saveCache, os_MkdirAll, os_WriteFile.
  rewrite Hmk. destruct (disk w); simpl; by rewrite Hwr.
Qed.

Lemma saveCache_write_fails env cache w err :
  mkdir_fault env = None → write_fault env = Some err →
  saveCache env cache w
  = (mkWorld (match disk w with NoDir => NoFile | d => d end)
       (cache :: written w), Some err).
Proof.
  intros Hmk Hwr. unfold saveCache, os_MkdirAll, os_WriteFile.
  rewrite Hmk. destruct w as [[| |data] ws]; simpl; by rewrite Hwr.
Qed.

Lemma loadCache_saved env cache ws :
  read_fault env = None →
  loadCache env (mkWorld (File (Encodes cache)) ws) = inr cache.
Proof. intros Hrd. unfold loadCache, os_ReadFile. simpl. by rewrite Hrd. Qed.

(** C8.  With no directory or no file, [loadCache] returns a cache with an
    empty, allocated map and no error; and so it does in the world a
    successful [clearCache] leaves. *)
Theorem loadCache_cold_start env env' w :
  (disk w = NoDir ∨ disk w = NoFile →
   loadCache env w = inr (mkCache (Table ∅))) ∧
  (∀ w', clearCache env' w = (w', None) →
   loadCache env w' = inr (mkCache (Table ∅))).
Proof.
  split.
  - intros [Hd|Hd]; unfold loadCache, stat_IsNotExist; by rewrite Hd.
  - intros w'. unfold clearCache, os_RemoveAll.
    destruct (remove_fault env'); [done|]. by intros [= <-].
Qed.

Lemma loadCache_cold_start_witness :
  loadCache (quietEnv stableRuntime 7) (mkWorld NoFile [])
  = inr (mkCache (Table ∅)) ∧
  loadCache (quietEnv stableRuntime 7)
    (clearCache (quietEnv stableRuntime 6)
       (mkWorld (File (Encodes cacheABC)) [cacheABC])).1
  = inr (mkCache (Table ∅)).
Proof.
  destruct (loadCache_cold_start (quietEnv stableRuntime 7)
              (quietEnv stableRuntime 6) (mkWorld NoFile [])) as [Hcold _].
  destruct (loadCache_cold_start (quietEnv stableRuntime 7)
              (quietEnv stableRuntime 6)
              (mkWorld (File (Encodes cacheABC)) [cacheABC])) as [_ Hclear].
  split.
  - apply Hcold. right. reflexivity.
  - apply Hclear. reflexivity.
Defined.

(** ** The fetch operation *)

Section FetcherFacts.

Context {Request : Type}.
Variable json_Marshal : Request → error + list byte.
Variable sha256_Sum256 : list byte → list byte.

#[local] Abbreviation generateHash := (generateHash json_Marshal sha256_Sum256).
#[local] Abbreviation getResponse := (getResponse json_Marshal sha256_Sum256).

(** The hit path, lines 114 to 121, when the save succeeds. *)
Lemma getResponse_hit_run (c : CachingClient Request) env req w cache hash entry :
  cacheEnabled c = true →
  loadCache env w = inr cache →
  generateHash req = inr hash →
  go_lookup (Responses cache) hash = Some entry →
  mkdir_fault env = None → write_fault env = None →
  let updated :=
    mkCache (Table (<[hash := mkCacheEntry (Response entry) (now env)]>
                      (store cache))) in
  getResponse c env req w
  = (mkWorld (File (Encodes updated)) (updated :: written w),
     Return 120 (Response entry) true None).
Proof.
  intros Hon Hload Hhash Hfound Hmk Hwr updated.
  unfold getResponse. rewrite Hon, Hload, Hhash, Hfound. simpl.
  destruct cache as [[|m]]; [done|]. simpl.
  by rewrite saveCache_ok.
Qed.

(** The miss path, lines 123 to 141, when the remote call answers and the
    save succeeds. *)
Lemma getResponse_miss_run (c : CachingClient Request) env req w m hash
    response others :
  cacheEnabled c = true →
  loadCache env w = inr (mkCache (Table m)) →
  generateHash req = inr hash →
  m !! hash = None →
  CreateChatCompletion c req = inr (response :: others) →
  mkdir_fault env = None → write_fault env = None →
  let inserted :=
    mkCache (Table (<[hash := mkCacheEntry response (now env)]> m)) in
  let kept := (evictIfNeeded (runtime env) c inserted).1 in
  getResponse c env req w
  = (mkWorld (File (Encodes kept)) (kept :: written w),
     Return 141 response false None).
Proof.
  intros Hon Hload Hhash Hmiss Hcall Hmk Hwr inserted kept.
  unfold getResponse, fetchResponse.
  rewrite Hon, Hload, Hhash. simpl. unfold go_lookup. simpl.
  rewrite Hmiss, Hcall. fold inserted.
  destruct (evictIfNeeded (runtime env) c inserted) as [cache' oerr] eqn:Hev.
  assert (oerr = None) as ->.
  { change oerr with (cache', oerr).2. rewrite <- Hev.
    unfold evictIfNeeded. by destruct (_ <=? _). }
  subst kept. simpl. by rewrite saveCache_ok.
Qed.

(** Whatever the runtime does, eviction only deletes. *)
Lemma evictLoop_subseteq limit es cacheSize m :
  ∃ m', evictLoop limit es cacheSize (Table m) = Table m' ∧ m' ⊆ m.
Proof.
  revert cacheSize m. induction es as [|oldest es IH]; intros cacheSize m.
  - by exists m.
  - simpl. destruct (limit <? cacheSize); [|by exists m].
    destruct (IH (Int64.sub cacheSize
                    (len (Response (go_index (Table m) oldest.1))))
                 (delete oldest.1 m)) as (m' & -> & Hsub).
    exists m'. split; [done|].
    etrans; [exact Hsub|apply delete_subseteq].
Qed.

Lemma evictIfNeeded_subseteq (rt : Runtime) (c : CachingClient Request) m :
  ∃ m', evictIfNeeded rt c (mkCache (Table m)) = (mkCache (Table m'), None)
        ∧ m' ⊆ m.
Proof.
  unfold evictIfNeeded. destruct (_ <=? _); [by exists m|].
  simpl Responses.
  match goal with
  | |- context [evictLoop ?l ?es ?sz (Table m)] =>
      destruct (evictLoop_subseteq l es sz m) as (m' & -> & Hsub)
  end.
  by exists m'.
Qed.

(** A miss that succeeds persists what [insertThenEvict] computes. *)
Lemma getResponse_miss_insertThenEvict (c : CachingClient Request) env env'
    req w m hash response others :
  cacheEnabled c = true →
  loadCache env w = inr (mkCache (Table m)) →
  generateHash req = inr hash →
  m !! hash = None →
  CreateChatCompletion c req = inr (response :: others) →
  mkdir_fault env = None → write_fault env = None →
  read_fault env' = None →
  loadCache env' (getResponse c env req w).1
  = inr (mkCache (Table (insertThenEvict (runtime env) c m
                           (hash, mkCacheEntry response (now env))))).
Proof.
  intros Hon Hload Hhash Hmiss Hcall Hmk Hwr Hrd.
  rewrite (getResponse_miss_run c env req w m hash response others) by done.
  cbv zeta. simpl. rewrite loadCache_saved by done.
  unfold insertThenEvict. simpl.
  destruct (evictIfNeeded_subseteq (runtime env) c
              (<[hash := mkCacheEntry response (now env)]> m))
    as (m' & -> & _).
  done.
Qed.

(** C6.  With caching enabled, a cache that loads, and a request whose
    fingerprint is found in it, a fetch whose save succeeds writes the cache
    with that entry's timestamp set to the current time and every other
    entry as it was, and returns the stored payload, [cached = true] and a
    nil error. *)
Theorem getResponse_hit (c : CachingClient Request) env req w cache hash entry :
  cacheEnabled c = true →
  loadCache env w = inr cache →
  generateHash req = inr hash →
  go_lookup (Responses cache) hash = Some entry →
  mkdir_fault env = None → write_fault env = None →
  let updated :=
    mkCache (Table (<[hash := mkCacheEntry (Response entry) (now env)]>
                      (store cache))) in
  getResponse c env req w
  = (mkWorld (File (Encodes updated)) (updated :: written w),
     Return 120 (Response entry) true None).
Proof. apply getResponse_hit_run. Qed.

(** If the save fails instead, its error is what the fetch returns. *)
Lemma getResponse_hit_save_fails (c : CachingClient Request) env req w cache
    hash entry err :
  cacheEnabled c = true →
  loadCache env w = inr cache →
  generateHash req = inr hash →
  go_lookup (Responses cache) hash = Some entry →
  mkdir_fault env = None → write_fault env = Some err →
  (getResponse c env req w).2 = Return 118 "" false (Some err).
Proof.
  intros Hon Hload Hhash Hfound Hmk Hwr.
  unfold getResponse. rewrite Hon, Hload, Hhash, Hfound. simpl.
  destruct cache as [[|m]]; [done|]. simpl.
  by rewrite (saveCache_write_fails _ _ _ err).
Qed.

(** C7.  With caching enabled, a cache that loads, and a request whose
    fingerprint is not in it, a failing remote call makes the fetch return
    that error, and the world is as before: the same file, and nothing
    handed to [os.WriteFile]. *)
Theorem getResponse_remote_failure (c : CachingClient Request) env req w cache
    hash err :
  cacheEnabled c = true →
  loadCache env w = inr cache →
  generateHash req = inr hash →
  go_lookup (Responses cache) hash = None →
  CreateChatCompletion c req = inl err →
  getResponse c env req w = (w, Return 125 "" false (Some err)) ∧
  loadCache env (getResponse c env req w).1 = inr cache ∧
  written (getResponse c env req w).1 = written w.
Proof.
  intros Hon Hload Hhash Hmiss Hcall.
  assert (Hrun : getResponse c env req w = (w, Return 125 "" false (Some err))).
  { unfold getResponse, fetchResponse.
    by rewrite Hon, Hload, Hhash, Hmiss, Hcall. }
  rewrite Hrun. by split_and!.
Qed.

(** C4.  With caching enabled, a cache that loads with an allocated map in
    which the request's fingerprint is new, a remote call that answers, a
    payload that survives the eviction of the first call, and no failing
    system call, three fetches of the request in a row return the payload
    with [cached] false, then true, then true. *)
Theorem getResponse_three_calls (c : CachingClient Request) env1 env2 env3
    req w0 m hash payload others :
  cacheEnabled c = true →
  loadCache env1 w0 = inr (mkCache (Table m)) →
  generateHash req = inr hash →
  m !! hash = None →
  CreateChatCompletion c req = inr (payload :: others) →
  is_Some (store (evictIfNeeded (runtime env1) c
             (mkCache (Table (<[hash := mkCacheEntry payload (now env1)]> m)))).1
           !! hash) →
  noFaults env1 → noFaults env2 → noFaults env3 →
  ∃ w1 w2 w3,
    getResponse c env1 req w0 = (w1, Return 141 payload false None) ∧
    getResponse c env2 req w1 = (w2, Return 120 payload true None) ∧
    getResponse c env3 req w2 = (w3, Return 120 payload true None).
Proof.
  intros Hon Hload Hhash Hnew Hcall Hkept (_ & Hmk1 & Hwr1)
    (Hrd2 & Hmk2 & Hwr2) (Hrd3 & Hmk3 & Hwr3).
  pose proof (getResponse_miss_run c env1 req w0 m hash payload others
                Hon Hload Hhash Hnew Hcall Hmk1 Hwr1) as Hrun1.
  cbv zeta in Hrun1.
  destruct (evictIfNeeded_subseteq (runtime env1) c
              (<[hash := mkCacheEntry payload (now env1)]> m))
    as (m1 & Hev & Hsub).
  rewrite Hev in Hrun1, Hkept. simpl in Hrun1, Hkept.
  unfold store in Hkept. simpl in Hkept.
  assert (Hm1 : m1 !! hash = Some (mkCacheEntry payload (now env1))).
  { destruct Hkept as [e He]. rewrite He. f_equal.
    pose proof (lookup_weaken _ _ _ _ He Hsub) as He'.
    rewrite lookup_insert_eq in He'. by injection He'. }
  eexists _, _, _. split; [exact Hrun1|]. split.
  - apply (getResponse_hit_run c env2 req _ (mkCache (Table m1)) hash
             (mkCacheEntry payload (now env1))); try done.
    by apply loadCache_saved.
  - apply (getResponse_hit_run c env3 req _
             (mkCache (Table (<[hash := mkCacheEntry payload (now env2)]> m1)))
             hash (mkCacheEntry payload (now env2))); try done.
    + by apply loadCache_saved.
    + unfold go_lookup. simpl. apply lookup_insert_eq.
Qed.

(** A file that decodes to the nil map loads without error, and the miss
    path then assigns into that map. *)
Lemma getResponse_nil_map (c : CachingClient Request) env req w hash
    response others :
  cacheEnabled c = true →
  loadCache env w = inr (mkCache NilMap) →
  generateHash req = inr hash →
  CreateChatCompletion c req = inr (response :: others) →
  getResponse c env req w = (w, Panics AssignToNilMap).
Proof.
  intros Hon Hload Hhash Hcall. unfold getResponse, fetchResponse.
  by rewrite Hon, Hload, Hhash, Hcall.
Qed.

End FetcherFacts.

Lemma getResponse_hit_witness :
  let env := quietEnv stableRuntime 9 in
  let updated :=
    mkCache (Table (<[sampleHash "Tell me a joke."
                      := mkCacheEntry "Why did the gopher cross the road?" 9]>
                      (store cacheJoke))) in
  getResponse sampleMarshal sampleDigest (sampleClient true 100) env
    "Tell me a joke." (mkWorld (File (Encodes cacheJoke)) [])
  = (mkWorld (File (Encodes updated)) [updated],
     Return 120 "Why did the gopher cross the road?" true None).
Proof.
  apply (getResponse_hit sampleMarshal sampleDigest (sampleClient true 100)
           (quietEnv stableRuntime 9) "Tell me a joke."
           (mkWorld (File (Encodes cacheJoke)) []) cacheJoke
           (sampleHash "Tell me a joke.")
           (mkCacheEntry "Why did the gopher cross the road?" 4));
    reflexivity.
Defined.

Lemma getResponse_remote_failure_witness :
  let env := quietEnv stableRuntime 9 in
  let w := mkWorld (File (Encodes cacheJoke)) [cacheJoke] in
  let call := getResponse sampleMarshal sampleDigest (failingClient 100) env
                "What's the capital of France?" w in
  call = (w, Return 125 "" false (Some (APIError "rate limit exceeded"))) ∧
  loadCache env call.1 = inr cacheJoke ∧
  written call.1 = written w.
Proof.
  apply (getResponse_remote_failure sampleMarshal sampleDigest
           (failingClient 100) (quietEnv stableRuntime 9)
           "What's the capital of France?"
           (mkWorld (File (Encodes cacheJoke)) [cacheJoke]) cacheJoke
           (sampleHash "What's the capital of France?")
           (APIError "rate limit exceeded"));
    reflexivity.
Defined.

Lemma getResponse_three_calls_witness :
  ∃ w1 w2 w3,
    getResponse sampleMarshal sampleDigest (sampleClient true 100)
      (quietEnv stableRuntime 1) "Tell me a joke." (mkWorld NoDir [])
    = (w1, Return 141 "reply to Tell me a joke." false None) ∧
    getResponse sampleMarshal sampleDigest (sampleClient true 100)
      (quietEnv reverseRuntime 2) "Tell me a joke." w1
    = (w2, Return 120 "reply to Tell me a joke." true None) ∧
    getResponse sampleMarshal sampleDigest (sampleClient true 100)
      (quietEnv stableRuntime 3) "Tell me a joke." w2
    = (w3, Return 120 "reply to Tell me a joke." true None).
Proof.
  apply (getResponse_three_calls sampleMarshal sampleDigest
           (sampleClient true 100) (quietEnv stableRuntime 1)
           (quietEnv reverseRuntime 2) (quietEnv stableRuntime 3)
           "Tell me a joke." (mkWorld NoDir []) ∅
           (sampleHash "Tell me a joke.") "reply to Tell me a joke." []);
    try reflexivity.
  - vm_compute. eexists. reflexivity.
  - repeat split.
  - repeat split.
  - repeat split.
Defined.

(** C9 fails on the code.  A cache file holding [{}] decodes without error
    to a cache whose map is nil; the fetch of a new request then panics at
    the assignment on line 128. *)
Theorem getResponse_nil_map_panics :
  let env := quietEnv stableRuntime 5 in
  let w := mkWorld (File (Encodes (mkCache NilMap))) [] in
  loadCache env w = inr (mkCache NilMap) ∧
  getResponse sampleMarshal sampleDigest (sampleClient true 100) env
    "Tell me a joke." w
  = (w, Panics AssignToNilMap).
Proof. split; reflexivity. Qed.

(** ** The fingerprint *)

Lemma hex_byte v :
  match hexval (hexdigit (N.shiftr (Byte.to_N v) 4)),
        hexval (hexdigit (N.land (Byte.to_N v) 15)) with
  | Some h, Some l => Byte.of_N (16 * h + l)
  | _, _ => None
  end = Some v.
Proof. destruct v; vm_compute; reflexivity. Qed.

Lemma hex_DecodeString_EncodeToString src :
  hex_DecodeString (hex_EncodeToString src) = Some src.
Proof.
  induction src as [|v src IH]; [done|].
  simpl. rewrite IH. pose proof (hex_byte v) as Hv.
  destruct (hexval (hexdigit (N.shiftr (Byte.to_N v) 4))) as [h|]; [|done].
  destruct (hexval (hexdigit (N.land (Byte.to_N v) 15))) as [l|]; [|done].
  by rewrite Hv.
Qed.

Lemma hex_EncodeToString_inj src1 src2 :
  hex_EncodeToString src1 = hex_EncodeToString src2 → src1 = src2.
Proof.
  intros Heq. apply (f_equal hex_DecodeString) in Heq.
  rewrite !hex_DecodeString_EncodeToString in Heq. by injection Heq.
Qed.

Lemma hex_EncodeToString_length src :
  String.length (hex_EncodeToString src) = (2 * length src)%nat.
Proof. induction src as [|v src IH]; simpl; lia. Qed.

(** Two requests have one fingerprint only if their serializations have one
    digest. *)
Lemma generateHash_collision {Request} (json_Marshal : Request → error + list byte)
    (sha256_Sum256 : list byte → list byte) req1 req2 hash :
  generateHash json_Marshal sha256_Sum256 req1 = inr hash →
  generateHash json_Marshal sha256_Sum256 req2 = inr hash →
  ∃ data1 data2,
    json_Marshal req1 = inr data1 ∧ json_Marshal req2 = inr data2 ∧
    sha256_Sum256 data1 = sha256_Sum256 data2.
Proof.
  unfold generateHash. intros H1 H2.
  destruct (json_Marshal req1) as [|data1]; [done|].
  destruct (json_Marshal req2) as [|data2]; [done|].
  exists data1, data2. split_and!; [done..|].
  apply hex_EncodeToString_inj. congruence.
Qed.

(** * Further properties *)

(** ** More on the eviction policy *)

Lemma evictLoop_nil limit es cacheSize :
  evictLoop limit es cacheSize NilMap = NilMap.
Proof.
  revert cacheSize. induction es as [|oldest es IH]; intros cacheSize; [done|].
  simpl. by destruct (limit <? cacheSize).
Qed.

Lemma totalSize_lookup_le m k e :
  m !! k = Some e → len (Response e) ≤ totalSize m.
Proof.
  intros Hk. rewrite (totalSize_delete m k e Hk).
  pose proof (totalSize_nonneg (delete k m)). lia.
Qed.

Lemma deleteAll_subseteq ks m : deleteAll ks m ⊆ m.
Proof.
  revert m. induction ks as [|k ks IH]; intros m; [done|].
  rewrite deleteAll_cons. etrans; [apply IH|apply delete_subseteq].
Qed.

Lemma lookup_deleteAll_notin ks m k :
  k ∉ ks → deleteAll ks m !! k = m !! k.
Proof.
  revert m. induction ks as [|k' ks IH]; intros m Hk; [done|].
  apply not_elem_of_cons in Hk as [Hne Hk].
  rewrite deleteAll_cons, IH by done. by apply lookup_delete_ne.
Qed.

(** X1.  Whatever order [range] and [sort.Slice] produce, also one Go would
    never produce, eviction only deletes: every entry of the cache
    afterwards was an entry before, with the same payload and timestamp,
    and the nil map stays nil. *)
Theorem evictIfNeeded_only_deletes {Request} rt (c : CachingClient Request)
    (cache : Cache) :
  store (evictIfNeeded rt c cache).1 ⊆ store cache ∧
  (Responses cache = NilMap → Responses (evictIfNeeded rt c cache).1 = NilMap) ∧
  (∀ k e, store (evictIfNeeded rt c cache).1 !! k = Some e →
          store cache !! k = Some e).
Proof.
  assert (Hsub : store (evictIfNeeded rt c cache).1 ⊆ store cache).
  { destruct cache as [[|m]].
    - unfold evictIfNeeded. simpl. destruct (_ <=? _); [done|].
      simpl. by rewrite evictLoop_nil.
    - destruct (evictIfNeeded_subseteq rt c m) as (m' & -> & Hsub). done. }
  split_and!.
  - done.
  - intros Hnil. destruct cache as [gm]. simpl in Hnil. subst gm.
    unfold evictIfNeeded. simpl. destruct (_ <=? _); [done|].
    simpl. by rewrite evictLoop_nil.
  - intros k e Hk. by eapply lookup_weaken.
Qed.

(** X2.  Evicting again changes nothing: what one run of the policy leaves
    is left as it is by a second run, under any choices of the runtime in
    either run. *)
Theorem evictIfNeeded_idempotent {Request} rt rt' (c : CachingClient Request)
    (cache : Cache) :
  RuntimeOk rt → RuntimeOk rt' → fitsInt64 (store cache) →
  evictIfNeeded rt' c (evictIfNeeded rt c cache).1
  = ((evictIfNeeded rt c cache).1, None).
Proof.
  intros Hrt Hrt' Hfit. destruct cache as [[|m]].
  - rewrite (evictIfNeeded_nil rt c Hrt). simpl.
    apply (evictIfNeeded_nil rt' c Hrt').
  - unfold store in Hfit. simpl in Hfit.
    destruct (evictIfNeeded_split rt c m Hrt Hfit)
      as (evicted & rest & Hp & _ & -> & _ & Hstop & _).
    simpl. set (m' := deleteAll evicted.*1 m) in *.
    assert (Hfit' : fitsInt64 m').
    { unfold fitsInt64 in *. pose proof (totalSize_deleteAll_le evicted.*1 m).
      subst m'. lia. }
    destruct (evictIfNeeded_split rt' c m' Hrt' Hfit')
      as (evicted' & rest' & Hp' & _ & -> & _ & _ & Hnone).
    destruct Hstop as [Hle| ->].
    + by rewrite (Hnone Hle).
    + assert (Hempty : m' = ∅) by (by apply rest_nil_empty).
      rewrite Hempty. by rewrite deleteAll_empty.
Qed.

Lemma evictIfNeeded_idempotent_witness :
  evictIfNeeded reverseRuntime (sampleClient true 100)
    (evictIfNeeded stableRuntime (sampleClient true 100) cacheABC).1
  = ((evictIfNeeded stableRuntime (sampleClient true 100) cacheABC).1, None).
Proof.
  apply (evictIfNeeded_idempotent stableRuntime reverseRuntime
           (sampleClient true 100) cacheABC stableRuntime_ok reverseRuntime_ok).
  vm_compute. discriminate.
Defined.

(** X3.  No entry larger than the limit is left by the policy: every entry
    of the cache afterwards has a payload of at most [cacheSizeLimit]
    bytes. *)
Theorem evictIfNeeded_no_oversized_left {Request} rt (c : CachingClient Request)
    (cache : Cache) k e :
  RuntimeOk rt → fitsInt64 (store cache) →
  store (evictIfNeeded rt c cache).1 !! k = Some e →
  len (Response e) ≤ cacheSizeLimit c.
Proof.
  intros Hrt Hfit Hk. destruct cache as [[|m]].
  - rewrite (evictIfNeeded_nil rt c Hrt) in Hk. done.
  - unfold store in Hfit. simpl in Hfit.
    destruct (evictIfNeeded_split rt c m Hrt Hfit)
      as (evicted & rest & Hp & _ & Hrun & _ & Hstop & _).
    rewrite Hrun in Hk. unfold store in Hk. simpl in Hk.
    destruct Hstop as [Hle| ->].
    + pose proof (totalSize_lookup_le _ _ _ Hk). lia.
    + rewrite (rest_nil_empty _ _ Hp) in Hk. done.
Qed.

Lemma evictIfNeeded_no_oversized_left_witness :
  len (Response entryC) ≤ cacheSizeLimit (sampleClient true 100).
Proof.
  apply (evictIfNeeded_no_oversized_left stableRuntime (sampleClient true 100)
           cacheABC "hashC" entryC stableRuntime_ok).
  - vm_compute. discriminate.
  - vm_compute. reflexivity.
Defined.

Lemma ranked_elem m k u :
  (k, u) ∈ ranked m → ∃ e, m !! k = Some e ∧ Timestamp e = u.
Proof.
  intros Hin. apply list_elem_of_fmap in Hin as ([k' e] & Heq & Hin).
  injection Heq as Hk Hu. subst k' u.
  exists e. split; [|done]. by apply elem_of_map_to_list.
Qed.

(** In a sorted slice, an entry strictly newer than all the others comes
    last. *)
Lemma newest_is_last l1 l2 m h e :
  l1 ++ (h, Timestamp e) :: l2 ≡ₚ ranked m →
  sorted_by byTimestamp (l1 ++ (h, Timestamp e) :: l2) →
  (∀ k e', k ≠ h → m !! k = Some e' → Timestamp e' < Timestamp e) →
  l2 = [].
Proof.
  intros Hp Hs Hnewer. destruct l2 as [|[k u] l2]; [done|]. exfalso.
  assert (Hin : (k, u) ∈ ranked m) by (rewrite <- Hp; set_solver).
  apply ranked_elem in Hin as (e' & Hk & Hu).
  assert (Hne : k ≠ h).
  { pose proof (ranked_NoDup m) as Hnd. rewrite <- Hp in Hnd.
    rewrite fmap_app in Hnd. apply NoDup_app in Hnd as (_ & _ & Hnd).
    simpl in Hnd. apply NoDup_cons in Hnd as [Hnotin _].
    intros ->. apply Hnotin. left. }
  specialize (Hnewer k e' Hne Hk).
  apply sorted_by_le, StronglySorted_app_1_r in Hs.
  apply StronglySorted_inv in Hs as [_ Hall].
  apply Forall_inv in Hall. simpl in Hall. lia.
Qed.

(** X4.  An entry that is strictly newer than every other entry, and whose
    payload alone is within the limit, is never evicted. *)
Theorem evictIfNeeded_keeps_newest {Request} rt (c : CachingClient Request)
    (cache : Cache) h e :
  RuntimeOk rt → fitsInt64 (store cache) →
  store cache !! h = Some e →
  len (Response e) ≤ cacheSizeLimit c →
  (∀ k e', k ≠ h → store cache !! k = Some e' → Timestamp e' < Timestamp e) →
  store (evictIfNeeded rt c cache).1 !! h = Some e.
Proof.
  intros Hrt Hfit Hh Hsmall Hnewer. destruct cache as [[|m]]; [done|].
  unfold store in *. simpl in *.
  destruct (evictIfNeeded_split rt c m Hrt Hfit)
    as (evicted & rest & Hp & Hs & -> & Hover & _ & _).
  simpl. rewrite lookup_deleteAll_notin; [done|].
  intros Hin. apply list_elem_of_fmap in Hin as ([h' t] & Heq & Hin).
  simpl in Heq. subst h'.
  destruct (evicted_lookup _ _ _ _ _ Hp Hin) as (e0 & He0 & Ht).
  rewrite Hh in He0. injection He0 as <-. subst t.
  apply list_elem_of_split in Hin as (l1 & l2 & ->).
  rewrite <- app_assoc in Hp, Hs. simpl in Hp, Hs.
  pose proof (newest_is_last _ _ _ _ _ Hp Hs Hnewer) as Hlast.
  apply app_eq_nil in Hlast as [-> ->].
  specialize (Hover (length l1)). rewrite take_app_length in Hover.
  rewrite length_app in Hover. simpl in Hover. specialize (Hover ltac:(lia)).
  pose proof (rest_ranked l1 [(h, Timestamp e)] m Hp) as Hone.
  apply ranked_head in Hone as (e1 & He1 & _ & Hnil).
  apply ranked_nil in Hnil.
  rewrite (totalSize_delete _ _ _ He1), Hnil, totalSize_empty in Hover.
  pose proof (lookup_weaken _ _ _ _ He1 (deleteAll_subseteq l1.*1 m)) as He1'.
  rewrite Hh in He1'. injection He1' as <-. lia.
Qed.

Lemma evictIfNeeded_keeps_newest_witness :
  store (evictIfNeeded stableRuntime (sampleClient true 100) cacheABC).1
    !! "hashC" = Some entryC.
Proof.
  apply (evictIfNeeded_keeps_newest stableRuntime (sampleClient true 100)
           cacheABC "hashC" entryC stableRuntime_ok).
  - vm_compute. discriminate.
  - vm_compute. reflexivity.
  - vm_compute. discriminate.
  - intros k e' Hne Hk. unfold cacheABC, store in Hk. simpl in Hk.
    rewrite lookup_insert_ne in Hk by done.
    apply lookup_insert_Some in Hk as [[_ <-]|[_ Hk]]; [reflexivity|].
    apply lookup_insert_Some in Hk as [[_ <-]|[_ Hk]]; [reflexivity|].
    done.
Defined.

(** ** More on the fetch operation *)

Lemma totalSize_retimed m h e t :
  m !! h = Some e →
  totalSize (<[h := mkCacheEntry (Response e) t]> m) = totalSize m.
Proof.
  intros Hh. rewrite <- insert_delete_eq.
  rewrite totalSize_insert_fresh by apply lookup_delete_eq.
  by rewrite (totalSize_delete m h e Hh).
Qed.

Section FetcherMore.

Context {Request : Type}.
Variable json_Marshal : Request → error + list byte.
Variable sha256_Sum256 : list byte → list byte.

#[local] Abbreviation generateHash := (generateHash json_Marshal sha256_Sum256).
#[local] Abbreviation getResponse := (getResponse json_Marshal sha256_Sum256).

(** X6.  A fetch that returns an error returns it with the empty response
    and [cached = false], on every path. *)
Theorem getResponse_error_shape (c : CachingClient Request) env req w w'
    line response cached err :
  getResponse c env req w = (w', Return line response cached (Some err)) →
  response = "" ∧ cached = false.
Proof.
  unfold getResponse, fetchResponse.
  repeat (case_match; try discriminate); intros Heq; by simplify_eq.
Qed.

(** X7.  [cached = true] is reported only for a stored payload: the call
    then had caching enabled, returned a nil error from line 120, and the
    response is the payload that the loaded cache held under the request's
    fingerprint. *)
Theorem getResponse_cached_sound (c : CachingClient Request) env req w w'
    line response err :
  getResponse c env req w = (w', Return line response true err) →
  cacheEnabled c = true ∧ err = None ∧ line = 120%nat ∧
  ∃ cache hash entry,
    loadCache env w = inr cache ∧ generateHash req = inr hash ∧
    go_lookup (Responses cache) hash = Some entry ∧
    response = Response entry.
Proof.
  unfold getResponse, fetchResponse.
  destruct (cacheEnabled c); simpl.
  - destruct (loadCache env w) as [|cache]; [discriminate|].
    destruct (generateHash req) as [|hash]; [discriminate|].
    destruct (go_lookup (Responses cache) hash) as [entry|] eqn:Hfound.
    + repeat (case_match; try discriminate). intros Heq. simplify_eq.
      split_and!; try done. by exists cache, hash, entry.
    + repeat (case_match; try discriminate).
  - repeat (case_match; try discriminate); intros Heq; by simplify_eq.
Qed.

(** X8.  The world changes only through [saveCache]: a call that panics, or
    returns from any line but 118, 120, 138 and 141, leaves the file system
    as it was and hands nothing to [os.WriteFile]. *)
Theorem getResponse_world_unchanged (c : CachingClient Request) env req w w' o :
  getResponse c env req w = (w', o) →
  w' = w ∨
  ∃ line response cached err,
    o = Return line response cached err ∧ cacheEnabled c = true ∧
    (line = 118 ∨ line = 120 ∨ line = 138 ∨ line = 141)%nat.
Proof.
  unfold getResponse, fetchResponse.
  destruct (cacheEnabled c); simpl.
  - repeat (case_match; try discriminate); intros Heq; simplify_eq;
      first [by left
            | right; eexists _, _, _, _; split; [done|]; split; [done|]; lia].
  - repeat (case_match; try discriminate); intros Heq; simplify_eq; by left.
Qed.

(** X9.  A cache file that does not parse is never overwritten: every fetch
    with caching enabled returns the parse error from line 106 and leaves
    the world as it was. *)
Theorem getResponse_corrupt_file (c : CachingClient Request) env req w err :
  cacheEnabled c = true →
  disk w = File (Malformed err) →
  read_fault env = None →
  getResponse c env req w = (w, Return 106 "" false (Some err)).
Proof.
  intros Hon Hdisk Hrd.
  unfold getResponse, loadCache, stat_IsNotExist, os_ReadFile.
  by rewrite Hon, Hdisk, Hrd.
Qed.

(** X10.  A remote call that succeeds with no choice at all makes the fetch
    panic at [resp.Choices[0]], with caching disabled and on a miss alike;
    the world is left as it was. *)
Theorem getResponse_no_choices_panics (c : CachingClient Request) env req w :
  CreateChatCompletion c req = inr [] →
  (cacheEnabled c = false →
   getResponse c env req w = (w, Panics IndexOutOfRange)) ∧
  (∀ cache hash,
     cacheEnabled c = true →
     loadCache env w = inr cache →
     generateHash req = inr hash →
     go_lookup (Responses cache) hash = None →
     getResponse c env req w = (w, Panics IndexOutOfRange)).
Proof.
  intros Hcall. split.
  - intros Hoff. unfold getResponse, fetchResponse. by rewrite Hoff, Hcall.
  - intros cache hash Hon Hload Hhash Hmiss.
    unfold getResponse, fetchResponse.
    by rewrite Hon, Hload, Hhash, Hmiss, Hcall.
Qed.

(** X11.  A hit never evicts, also when the loaded cache is over the limit:
    the cache it writes has the keys, the payloads and the total size of
    the cache it loaded. *)
Theorem getResponse_hit_keeps_entries (c : CachingClient Request) env env' req w
    cache hash entry :
  cacheEnabled c = true →
  loadCache env w = inr cache →
  generateHash req = inr hash →
  go_lookup (Responses cache) hash = Some entry →
  mkdir_fault env = None → write_fault env = None →
  read_fault env' = None →
  ∃ cache',
    loadCache env' (getResponse c env req w).1 = inr cache' ∧
    dom (store cache') = dom (store cache) ∧
    (∀ k, Response <$> store cache' !! k = Response <$> store cache !! k) ∧
    totalSize (store cache') = totalSize (store cache).
Proof.
  intros Hon Hload Hhash Hfound Hmk Hwr Hrd.
  rewrite (getResponse_hit_run _ _ c env req w cache hash entry) by done.
  cbv zeta. simpl. eexists. split; [apply loadCache_saved, Hrd|].
  destruct cache as [[|m]]; [done|].
  unfold store, go_lookup in *. simpl in *. split_and!.
  - by apply dom_insert_lookup_L.
  - intros k. destruct (decide (k = hash)) as [->|Hne].
    + by rewrite lookup_insert_eq, Hfound.
    + by rewrite lookup_insert_ne.
  - by apply totalSize_retimed.
Qed.

(** X12.  The cache a successful miss writes obeys the limit: it holds
    entries of the loaded cache or the new one, and its total is at or
    under the limit, or it is empty. *)
Theorem getResponse_miss_persists_bounded (c : CachingClient Request) env env'
    req w m hash response others :
  cacheEnabled c = true →
  loadCache env w = inr (mkCache (Table m)) →
  generateHash req = inr hash →
  m !! hash = None →
  CreateChatCompletion c req = inr (response :: others) →
  mkdir_fault env = None → write_fault env = None →
  read_fault env' = None →
  RuntimeOk (runtime env) →
  fitsInt64 (<[hash := mkCacheEntry response (now env)]> m) →
  ∃ m',
    loadCache env' (getResponse c env req w).1 = inr (mkCache (Table m')) ∧
    m' ⊆ <[hash := mkCacheEntry response (now env)]> m ∧
    (totalSize m' ≤ cacheSizeLimit c ∨ m' = ∅).
Proof.
  intros Hon Hload Hhash Hmiss Hcall Hmk Hwr Hrd Hrt Hfit.
  eexists. split; [by eapply getResponse_miss_insertThenEvict|].
  split.
  - unfold insertThenEvict. simpl.
    destruct (evictIfNeeded_subseteq (runtime env) c
                (<[hash := mkCacheEntry response (now env)]> m))
      as (m' & -> & Hsub). done.
  - by apply (insertThenEvict_bound (runtime env) c m
                (hash, mkCacheEntry response (now env))).
Qed.

(** X13.  A payload larger than the limit is never cached: the fetch that
    obtains it evicts it again before saving, so the next fetch of the
    same request is a miss too. *)
Theorem getResponse_oversized_never_cached (c : CachingClient Request)
    env1 env2 req w0 m hash payload others :
  cacheEnabled c = true →
  loadCache env1 w0 = inr (mkCache (Table m)) →
  generateHash req = inr hash →
  m !! hash = None →
  CreateChatCompletion c req = inr (payload :: others) →
  cacheSizeLimit c < len payload →
  RuntimeOk (runtime env1) →
  fitsInt64 (<[hash := mkCacheEntry payload (now env1)]> m) →
  noFaults env1 → noFaults env2 →
  ∃ w1 w2,
    getResponse c env1 req w0 = (w1, Return 141 payload false None) ∧
    getResponse c env2 req w1 = (w2, Return 141 payload false None).
Proof.
  intros Hon Hload Hhash Hnew Hcall Hbig Hrt Hfit (_ & Hmk1 & Hwr1)
    (Hrd2 & Hmk2 & Hwr2).
  pose proof (getResponse_miss_run _ _ c env1 req w0 m hash payload others
                Hon Hload Hhash Hnew Hcall Hmk1 Hwr1) as Hrun1.
  cbv zeta in Hrun1.
  destruct (evictIfNeeded_split (runtime env1) c _ Hrt Hfit)
    as (evicted & rest & Hp & _ & Hev & _ & Hstop & _).
  rewrite Hev in Hrun1. simpl in Hrun1.
  set (m1 := deleteAll evicted.*1
               (<[hash := mkCacheEntry payload (now env1)]> m)) in *.
  assert (Hgone : m1 !! hash = None).
  { destruct (m1 !! hash) as [e|] eqn:Hk; [exfalso|done].
    pose proof (lookup_weaken _ _ _ _ Hk (deleteAll_subseteq _ _)) as Hk'.
    rewrite lookup_insert_eq in Hk'. injection Hk' as <-.
    destruct Hstop as [Hle|Hnil].
    - pose proof (totalSize_lookup_le _ _ _ Hk). simpl in *. lia.
    - subst rest. unfold m1 in Hk. rewrite (rest_nil_empty _ _ Hp) in Hk.
      done. }
  eexists _, _. split; [exact Hrun1|].
  apply (getResponse_miss_run _ _ c env2 req _ m1 hash payload others);
    try done.
  by apply loadCache_saved.
Qed.

End FetcherMore.

Lemma getResponse_error_shape_witness :
  "" = "" ∧ false = false.
Proof.
  apply (getResponse_error_shape sampleMarshal sampleDigest (failingClient 100)
           (quietEnv stableRuntime 9) "What's the capital of France?"
           (mkWorld (File (Encodes cacheJoke)) [])
           (mkWorld (File (Encodes cacheJoke)) [])
           125 "" false (APIError "rate limit exceeded")).
  reflexivity.
Defined.

Lemma getResponse_cached_sound_witness :
  cacheEnabled (sampleClient true 100) = true ∧ @None error = None ∧
  120%nat = 120%nat ∧
  ∃ cache hash entry,
    loadCache (quietEnv stableRuntime 9) (mkWorld (File (Encodes cacheJoke)) [])
    = inr cache ∧
    generateHash sampleMarshal sampleDigest "Tell me a joke." = inr hash ∧
    go_lookup (Responses cache) hash = Some entry ∧
    "Why did the gopher cross the road?" = Response entry.
Proof.
  apply (getResponse_cached_sound sampleMarshal sampleDigest
           (sampleClient true 100) (quietEnv stableRuntime 9) "Tell me a joke."
           (mkWorld (File (Encodes cacheJoke)) [])
           (getResponse sampleMarshal sampleDigest (sampleClient true 100)
              (quietEnv stableRuntime 9) "Tell me a joke."
              (mkWorld (File (Encodes cacheJoke)) [])).1
           120 "Why did the gopher cross the road?" None).
  reflexivity.
Defined.

Lemma getResponse_world_unchanged_witness :
  corruptWorld = corruptWorld ∨
  ∃ line response cached err,
    Return 106 "" false (Some (JSONError "unexpected end of JSON input"))
    = Return line response cached err ∧
    cacheEnabled (sampleClient true 100) = true ∧
    (line = 118 ∨ line = 120 ∨ line = 138 ∨ line = 141)%nat.
Proof.
  apply (getResponse_world_unchanged sampleMarshal sampleDigest
           (sampleClient true 100) (quietEnv stableRuntime 9) "Tell me a joke."
           corruptWorld corruptWorld).
  reflexivity.
Defined.

Lemma getResponse_corrupt_file_witness :
  getResponse sampleMarshal sampleDigest (sampleClient true 100)
    (quietEnv stableRuntime 9) "Tell me a joke." corruptWorld
  = (corruptWorld,
     Return 106 "" false (Some (JSONError "unexpected end of JSON input"))).
Proof.
  apply (getResponse_corrupt_file sampleMarshal sampleDigest
           (sampleClient true 100) (quietEnv stableRuntime 9) "Tell me a joke."
           corruptWorld (JSONError "unexpected end of JSON input"));
    reflexivity.
Defined.

Lemma getResponse_no_choices_panics_witness :
  getResponse sampleMarshal sampleDigest (silentClient false 100)
    (quietEnv stableRuntime 9) "Tell me a joke." (mkWorld NoDir [])
  = (mkWorld NoDir [], Panics IndexOutOfRange) ∧
  getResponse sampleMarshal sampleDigest (silentClient true 100)
    (quietEnv stableRuntime 9) "Tell me a joke." (mkWorld NoDir [])
  = (mkWorld NoDir [], Panics IndexOutOfRange).
Proof.
  split.
  - apply (getResponse_no_choices_panics sampleMarshal sampleDigest
             (silentClient false 100) (quietEnv stableRuntime 9)
             "Tell me a joke." (mkWorld NoDir [])); reflexivity.
  - apply (proj2 (getResponse_no_choices_panics sampleMarshal sampleDigest
                    (silentClient true 100) (quietEnv stableRuntime 9)
                    "Tell me a joke." (mkWorld NoDir []) eq_refl)
             (mkCache (Table ∅)) (sampleHash "Tell me a joke."));
      reflexivity.
Defined.

Lemma getResponse_hit_keeps_entries_witness :
  ∃ cache',
    loadCache (quietEnv stableRuntime 10)
      (getResponse sampleMarshal sampleDigest (sampleClient true 5)
         (quietEnv stableRuntime 9) "Tell me a joke."
         (mkWorld (File (Encodes cacheJoke)) [])).1 = inr cache' ∧
    dom (store cache') = dom (store cacheJoke) ∧
    (∀ k, Response <$> store cache' !! k = Response <$> store cacheJoke !! k) ∧
    totalSize (store cache') = totalSize (store cacheJoke).
Proof.
  apply (getResponse_hit_keeps_entries sampleMarshal sampleDigest
           (sampleClient true 5) (quietEnv stableRuntime 9)
           (quietEnv stableRuntime 10) "Tell me a joke."
           (mkWorld (File (Encodes cacheJoke)) []) cacheJoke
           (sampleHash "Tell me a joke.")
           (mkCacheEntry "Why did the gopher cross the road?" 4));
    reflexivity.
Defined.

Lemma getResponse_miss_persists_bounded_witness :
  ∃ m',
    loadCache (quietEnv stableRuntime 10)
      (getResponse sampleMarshal sampleDigest (sampleClient true 40)
         (quietEnv stableRuntime 9) "What's the capital of France?"
         (mkWorld (File (Encodes cacheJoke)) [])).1
    = inr (mkCache (Table m')) ∧
    m' ⊆ <[sampleHash "What's the capital of France?"
           := mkCacheEntry "reply to What's the capital of France?" 9]>
           (store cacheJoke) ∧
    (totalSize m' ≤ 40 ∨ m' = ∅).
Proof.
  apply (getResponse_miss_persists_bounded sampleMarshal sampleDigest
           (sampleClient true 40) (quietEnv stableRuntime 9)
           (quietEnv stableRuntime 10) "What's the capital of France?"
           (mkWorld (File (Encodes cacheJoke)) []) (store cacheJoke)
           (sampleHash "What's the capital of France?")
           "reply to What's the capital of France?" []);
    try reflexivity.
  - apply stableRuntime_ok.
  - vm_compute. discriminate.
Defined.

Lemma getResponse_oversized_never_cached_witness :
  ∃ w1 w2,
    getResponse sampleMarshal sampleDigest (sampleClient true 5)
      (quietEnv stableRuntime 1) "Tell me a joke." (mkWorld NoDir [])
    = (w1, Return 141 "reply to Tell me a joke." false None) ∧
    getResponse sampleMarshal sampleDigest (sampleClient true 5)
      (quietEnv stableRuntime 2) "Tell me a joke." w1
    = (w2, Return 141 "reply to Tell me a joke." false None).
Proof.
  apply (getResponse_oversized_never_cached sampleMarshal sampleDigest
           (sampleClient true 5) (quietEnv stableRuntime 1)
           (quietEnv stableRuntime 2) "Tell me a joke." (mkWorld NoDir []) ∅
           (sampleHash "Tell me a joke.") "reply to Tell me a joke." []);
    try reflexivity.
  - apply stableRuntime_ok.
  - vm_compute. discriminate.
  - repeat split.
  - repeat split.
Defined.

(** ** Replaying requests *)

Lemma persisted_saved cache ws :
  persisted (mkWorld (File (Encodes cache)) ws) cache.
Proof. intros env Hrd. by apply loadCache_saved. Qed.

Lemma payloadBytes_cons {Request} (reply : Request → string) r rs :
  payloadBytes reply (r :: rs) = len (reply r) + payloadBytes reply rs.
Proof. done. Qed.

Lemma payloadBytes_app {Request} (reply : Request → string) rs1 rs2 :
  payloadBytes reply (rs1 ++ rs2)
  = payloadBytes reply rs1 + payloadBytes reply rs2.
Proof. induction rs1 as [|r rs1 IH]; simpl; lia. Qed.

Lemma payloadBytes_nonneg {Request} (reply : Request → string) rs :
  0 ≤ payloadBytes reply rs.
Proof.
  induction rs as [|r rs IH]; simpl; [lia|].
  pose proof (len_nonneg (reply r)). lia.
Qed.

#[global] Arguments payloadBytes : simpl never.

Section Replay.

Context {Request : Type}.
Variable json_Marshal : Request → error + list byte.
Variable sha256_Sum256 : list byte → list byte.

#[local] Abbreviation generateHash := (generateHash json_Marshal sha256_Sum256).
#[local] Abbreviation getResponse := (getResponse json_Marshal sha256_Sum256).

Variable c : CachingClient Request.
Variables hashOf reply : Request → string.
Variable requests : list Request.

Hypothesis Hon : cacheEnabled c = true.
Hypothesis Hhash : ∀ r, r ∈ requests → generateHash r = inr (hashOf r).
Hypothesis Hinj :
  ∀ r1 r2, r1 ∈ requests → r2 ∈ requests → hashOf r1 = hashOf r2 → r1 = r2.
Hypothesis Hcall :
  ∀ r, r ∈ requests → ∃ others, CreateChatCompletion c r = inr (reply r :: others).
Hypothesis Hlimit : cacheSizeLimit c ≤ Int64.max_int.

(** A new request whose answer fits is fetched from the remote call and
    added, and nothing is evicted. *)
Lemma miss_step env known total w r :
  noFaults env → RuntimeOk (runtime env) →
  holds hashOf reply requests known total w →
  (∀ r', r' ∈ known → r' ∈ requests) →
  r ∈ requests → r ∉ known →
  total + len (reply r) ≤ cacheSizeLimit c →
  ∃ w', getResponse c env r w = (w', Return 141 (reply r) false None) ∧
        holds hashOf reply requests (r :: known) (total + len (reply r)) w'.
Proof.
  intros (Hrd & Hmk & Hwr) Hrt (m & Hpers & Htot & Hknown & Hnew)
    Hsub Hr Hfresh Hroom.
  destruct (Hcall r Hr) as [others Hothers].
  pose proof (Hnew r Hr Hfresh) as Hmiss.
  pose proof (getResponse_miss_run _ _ c env r w m (hashOf r) (reply r) others
                Hon (Hpers env Hrd) (Hhash r Hr) Hmiss Hothers Hmk Hwr) as Hrun.
  cbv zeta in Hrun.
  set (m' := <[hashOf r := mkCacheEntry (reply r) (now env)]> m) in *.
  assert (Htot' : totalSize m' = total + len (reply r)).
  { unfold m'. rewrite totalSize_insert_fresh by done. simpl. lia. }
  assert (Hfit : fitsInt64 m') by (unfold fitsInt64; lia).
  destruct (evictIfNeeded_split (runtime env) c m' Hrt Hfit)
    as (evicted & rest & _ & _ & Hev & _ & _ & Hnone).
  rewrite Hev, (Hnone ltac:(lia)) in Hrun. simpl in Hrun.
  eexists. split; [exact Hrun|].
  exists m'. split_and!.
  - apply persisted_saved.
  - done.
  - intros r' Hr'. apply elem_of_cons in Hr' as [->|Hr'].
    + exists (mkCacheEntry (reply r) (now env)).
      split; [apply lookup_insert_eq|done].
    + destruct (Hknown r' Hr') as (e & He & Hresp). exists e.
      split; [|done]. unfold m'. rewrite lookup_insert_ne; [done|].
      intros Heq. apply Hfresh.
      by rewrite (Hinj r r' Hr (Hsub r' Hr') Heq).
  - intros r' Hr' Hnotin. apply not_elem_of_cons in Hnotin as [Hne Hnotin].
    unfold m'. rewrite lookup_insert_ne; [by apply Hnew|].
    intros Heq. apply Hne. symmetry. by apply Hinj.
Qed.

(** A known request is answered from the cache, and only its timestamp
    changes. *)
Lemma hit_step env known total w r :
  noFaults env →
  holds hashOf reply requests known total w →
  (∀ r', r' ∈ known → r' ∈ requests) →
  r ∈ known →
  ∃ w', getResponse c env r w = (w', Return 120 (reply r) true None) ∧
        holds hashOf reply requests known total w'.
Proof.
  intros (Hrd & Hmk & Hwr) (m & Hpers & Htot & Hknown & Hnew) Hsub Hr.
  destruct (Hknown r Hr) as (e & He & Hresp).
  pose proof (getResponse_hit_run _ _ c env r w (mkCache (Table m)) (hashOf r) e
                Hon (Hpers env Hrd) (Hhash r (Hsub r Hr)) He Hmk Hwr) as Hrun.
  cbv zeta in Hrun. rewrite Hresp in Hrun. unfold store in Hrun.
  simpl in Hrun.
  eexists. split; [exact Hrun|].
  exists (<[hashOf r := mkCacheEntry (reply r) (now env)]> m). split_and!.
  - apply persisted_saved.
  - rewrite <- Hresp, <- Htot. by apply totalSize_retimed.
  - intros r' Hr'. destruct (decide (hashOf r' = hashOf r)) as [Heq|Hne].
    + rewrite (Hinj r' r (Hsub r' Hr') (Hsub r Hr) Heq).
      exists (mkCacheEntry (reply r) (now env)).
      split; [apply lookup_insert_eq|done].
    + rewrite lookup_insert_ne by done. by apply Hknown.
  - intros r' Hr' Hnotin. rewrite lookup_insert_ne; [by apply Hnew|].
    intros Heq. apply Hnotin.
    by rewrite <- (Hinj r r' (Hsub r Hr) Hr' Heq).
Qed.

Section Loop.

Variable envs : nat → Env.
Hypothesis Henvs : ∀ n, noFaults (envs n) ∧ RuntimeOk (runtime (envs n)).

(** A loop body that fetches the request of its item and, when the fetch
    returns without error, moves on with [out] appended to the lines. *)
Context {A : Type}.
Variable req : A → Request.
Variable out : A → string → bool → list string.
Variable body : A → Run → Run * option Panic.
Hypothesis Hbody :
  ∀ a st w' line response cached,
    getResponse c (envs (calls st)) (req a) (world st)
    = (w', Return line response cached None) →
    body a st
    = (mkRun w' (S (calls st)) (lines st ++ out a response cached), None).

Lemma forEach_misses items :
  ∀ st known total,
    holds hashOf reply requests known total (world st) →
    (∀ r, r ∈ known → r ∈ requests) →
    (∀ a, a ∈ items → req a ∈ requests ∧ req a ∉ known) →
    NoDup (req <$> items) →
    total + payloadBytes reply (req <$> items) ≤ cacheSizeLimit c →
    ∃ st' known',
      forEach body items st = (st', None) ∧
      calls st' = (calls st + length items)%nat ∧
      lines st'
      = lines st ++ flat_map (λ a, out a (reply (req a)) false) items ∧
      holds hashOf reply requests known'
        (total + payloadBytes reply (req <$> items)) (world st') ∧
      (∀ r, r ∈ known' ↔ r ∈ known ∨ r ∈ req <$> items).
Proof.
  induction items as [|a items IH]; intros st known total Hholds Hsub Hitems
    Hnd Hroom.
  - exists st, known. simpl. split_and!.
    + done.
    + lia.
    + by rewrite app_nil_r.
    + unfold payloadBytes. simpl. by rewrite Z.add_0_r.
    + intros r. rewrite elem_of_nil. tauto.
  - rewrite fmap_cons in Hnd, Hroom. rewrite payloadBytes_cons in Hroom.
    apply NoDup_cons in Hnd as [Hhead Hnd].
    destruct (Hitems a ltac:(left)) as [Hreq Hfresh].
    pose proof (payloadBytes_nonneg reply (req <$> items)).
    destruct (Henvs (calls st)) as [Hquiet Hrt].
    destruct (miss_step (envs (calls st)) known total (world st) (req a)
                Hquiet Hrt Hholds Hsub Hreq Hfresh ltac:(lia))
      as (w' & Hrun & Hholds').
    simpl. rewrite (Hbody a st w' _ _ _ Hrun).
    destruct (IH (mkRun w' (S (calls st))
                    (lines st ++ out a (reply (req a)) false))
                 (req a :: known) (total + len (reply (req a))))
      as (st' & known' & Hloop & Hcalls & Hlines & Hholds'' & Hknown');
      simpl; try done.
    + intros r Hr. apply elem_of_cons in Hr as [->|Hr]; auto.
    + intros a' Ha'. destruct (Hitems a' ltac:(by right)) as [? ?].
      split; [done|]. apply not_elem_of_cons. split; [|done].
      intros Heq. apply Hhead. rewrite <- Heq.
      by apply list_elem_of_fmap_2.
    + lia.
    + exists st', known'. simpl in *. split_and!.
      * done.
      * lia.
      * by rewrite Hlines, <- app_assoc.
      * by rewrite payloadBytes_cons, Z.add_assoc.
      * intros r. rewrite Hknown', !elem_of_cons. tauto.
Qed.

Lemma forEach_hits items :
  ∀ st known total,
    holds hashOf reply requests known total (world st) →
    (∀ r, r ∈ known → r ∈ requests) →
    (∀ a, a ∈ items → req a ∈ known) →
    ∃ st',
      forEach body items st = (st', None) ∧
      calls st' = (calls st + length items)%nat ∧
      lines st'
      = lines st ++ flat_map (λ a, out a (reply (req a)) true) items ∧
      holds hashOf reply requests known total (world st').
Proof.
  induction items as [|a items IH]; intros st known total Hholds Hsub Hitems.
  - exists st. simpl. split_and!; [done|lia|by rewrite app_nil_r|done].
  - destruct (Henvs (calls st)) as [Hquiet _].
    destruct (hit_step (envs (calls st)) known total (world st) (req a)
                Hquiet Hholds Hsub (Hitems a ltac:(left)))
      as (w' & Hrun & Hholds').
    simpl. rewrite (Hbody a st w' _ _ _ Hrun).
    destruct (IH (mkRun w' (S (calls st))
                    (lines st ++ out a (reply (req a)) true)) known total)
      as (st' & Hloop & Hcalls & Hlines & Hholds''); simpl; try done.
    + intros a' Ha'. apply Hitems. by right.
    + exists st'. simpl in *. split_and!; try done; [lia|].
      by rewrite Hlines, <- app_assoc.
Qed.

End Loop.

End Replay.

(** ** The callers *)

Lemma forEach_world {A} (body : A → Run → Run * option Panic) (w : World) l :
  (∀ a st, world st = w → world (body a st).1 = w) →
  ∀ st, world st = w → world (forEach body l st).1 = w.
Proof.
  intros Hbody. induction l as [|a l IH]; intros st Hst; [done|].
  simpl. pose proof (Hbody a st Hst) as Hstep.
  destruct (body a st) as [st' [p|]]; [done|]. by apply IH.
Qed.

Lemma flat_map_nil {A B} (f : A → list B) l :
  (∀ a, f a = []) → flat_map f l = [].
Proof. intros Hf. induction l as [|a l IH]; simpl; [done|]. by rewrite Hf. Qed.

Lemma flat_map_singleton {A B} (f : A → B) l :
  flat_map (λ a, [f a]) l = f <$> l.
Proof. induction l as [|a l IH]; simpl; [done|]. by rewrite IH. Qed.

Lemma prompts_NoDup : NoDup prompts.
Proof. apply (bool_decide_unpack _). vm_compute. exact I. Qed.

#[global] Instance newRequest_inj model maxTokens :
  Inj (=) (=) (λ prompt, newRequest model prompt maxTokens).
Proof. intros p1 p2 Heq. by injection Heq. Qed.

Lemma requestsOf_model maxTokens model prompt :
  model ∈ models → prompt ∈ prompts →
  newRequest model prompt maxTokens ∈ requestsOf maxTokens.
Proof.
  intros Hm Hp. apply list_elem_of_In, in_flat_map.
  exists model. split; [by apply list_elem_of_In|].
  apply list_elem_of_In.
  by apply (list_elem_of_fmap_2 (λ prompt, newRequest model prompt maxTokens)).
Qed.

Section CallerFacts.

Variable json_Marshal : ChatCompletionRequest → error + list byte.
Variable sha256_Sum256 : list byte → list byte.
Variable client : ChatCompletionRequest → error + list string.

#[local] Abbreviation getResponse := (getResponse json_Marshal sha256_Sum256).

Lemma getResponse_disabled_world (c : CachingClient ChatCompletionRequest)
    env req w :
  cacheEnabled c = false → (getResponse c env req w).1 = w.
Proof.
  intros Hoff. unfold getResponse. rewrite Hoff. simpl.
  by destruct (fetchResponse c req).
Qed.

(** X14.  Without [-cache-requests], [main] leaves the world as it found
    it, whatever the remote call does and however the run ends: it never
    reads, writes or creates the cache. *)
Theorem main_disabled_leaves_world envs apiKey cacheSizeLimit w :
  (main json_Marshal sha256_Sum256 client envs apiKey false cacheSizeLimit w).1.1
  = w.
Proof.
  unfold main. destruct (decide (apiKey = "")); [done|].
  set (c := NewCachingClient client false cacheSizeLimit).
  assert (Hw : world (forEach (mainModel json_Marshal sha256_Sum256 envs c)
                        models (mkRun w 0 [])).1 = w).
  { apply forEach_world; [|done].
    intros model st Hst. unfold mainModel.
    apply forEach_world; [|done].
    intros prompt st' Hst'. unfold mainPrompt.
    pose proof (getResponse_disabled_world c (envs (calls st'))
                  (newRequest model prompt 100) (world st') eq_refl) as Hsame.
    destruct (getResponse _ _ _ _) as [w' [line response cached err|p]];
      simpl in *; congruence. }
  by destruct (forEach _ _ _) as [st [p|]].
Qed.

(** The requests of one model are known after its first round. *)
Variables hashOf reply : ChatCompletionRequest → string.

Section OneLimit.

Variable maxTokens : Z.
Variable cacheSizeLimit : Z.

#[local] Abbreviation c := (NewCachingClient client true cacheSizeLimit).
#[local] Abbreviation requests := (requestsOf maxTokens).
#[local] Abbreviation holds := (holds hashOf reply requests).
#[local] Abbreviation requestsFor :=
  (λ model, (λ prompt, newRequest model prompt maxTokens) <$> prompts).

Hypothesis Hhash :
  ∀ r, r ∈ requests →
       generateHash json_Marshal sha256_Sum256 r = inr (hashOf r).
Hypothesis Hinj :
  ∀ r1 r2, r1 ∈ requests → r2 ∈ requests → hashOf r1 = hashOf r2 → r1 = r2.
Hypothesis Hcall :
  ∀ r, r ∈ requests → ∃ others, client r = inr (reply r :: others).
Hypothesis Hlimit : cacheSizeLimit ≤ Int64.max_int.

Variable envs : nat → Env.
Hypothesis Henvs : ∀ n, noFaults (envs n) ∧ RuntimeOk (runtime (envs n)).

Lemma first_round {A} (req : A → ChatCompletionRequest) out body items
    st known total :
  (∀ a st w' line response cached,
     getResponse c (envs (calls st)) (req a) (world st)
     = (w', Return line response cached None) →
     body a st
     = (mkRun w' (S (calls st)) (lines st ++ out a response cached), None)) →
  holds known total (world st) →
  (∀ r, r ∈ known → r ∈ requests) →
  (∀ a, a ∈ items → req a ∈ requests ∧ req a ∉ known) →
  NoDup (req <$> items) →
  total + payloadBytes reply (req <$> items) ≤ cacheSizeLimit →
  ∃ st' known',
    forEach body items st = (st', None) ∧
    calls st' = (calls st + length items)%nat ∧
    lines st' = lines st ++ flat_map (λ a, out a (reply (req a)) false) items ∧
    holds known' (total + payloadBytes reply (req <$> items)) (world st') ∧
    (∀ r, r ∈ known' ↔ r ∈ known ∨ r ∈ req <$> items).
Proof.
  intros Hbody. by apply (forEach_misses json_Marshal sha256_Sum256 c hashOf
                            reply requests eq_refl Hhash Hinj Hcall Hlimit
                            envs Henvs req out body Hbody).
Qed.

Lemma later_round {A} (req : A → ChatCompletionRequest) out body items
    st known total :
  (∀ a st w' line response cached,
     getResponse c (envs (calls st)) (req a) (world st)
     = (w', Return line response cached None) →
     body a st
     = (mkRun w' (S (calls st)) (lines st ++ out a response cached), None)) →
  holds known total (world st) →
  (∀ r, r ∈ known → r ∈ requests) →
  (∀ a, a ∈ items → req a ∈ known) →
  ∃ st',
    forEach body items st = (st', None) ∧
    calls st' = (calls st + length items)%nat ∧
    lines st' = lines st ++ flat_map (λ a, out a (reply (req a)) true) items ∧
    holds known total (world st').
Proof.
  intros Hbody. by apply (forEach_hits json_Marshal sha256_Sum256 c hashOf
                            reply requests eq_refl Hhash Hinj envs Henvs
                            req out body Hbody).
Qed.

Lemma one_hit env known total w r :
  noFaults env → holds known total w →
  (∀ r', r' ∈ known → r' ∈ requests) → r ∈ known →
  ∃ w', getResponse c env r w = (w', Return 120 (reply r) true None) ∧
        holds known total w'.
Proof.
  by apply (hit_step json_Marshal sha256_Sum256 c hashOf reply requests
              eq_refl Hhash Hinj).
Qed.

Lemma requestsFor_requests model r :
  model ∈ models → r ∈ requestsFor model → r ∈ requests.
Proof.
  intros Hm Hr. apply list_elem_of_fmap in Hr as (prompt & -> & Hp).
  by apply requestsOf_model.
Qed.

Lemma requestsFor_NoDup model : NoDup (requestsFor model).
Proof.
  apply (NoDup_fmap_2 (λ prompt, newRequest model prompt maxTokens)).
  apply prompts_NoDup.
Qed.

Lemma testPrompt_body model i prompt st w' line response cached :
  getResponse c (envs (calls st)) (newRequest model prompt maxTokens) (world st)
  = (w', Return line response cached None) →
  testPrompt json_Marshal sha256_Sum256 envs maxTokens c model i prompt st
  = (mkRun w' (S (calls st)) (lines st ++ roundChecks i cached), None).
Proof. intros Hrun. unfold testPrompt. by rewrite Hrun. Qed.

Lemma testModel_passes testCacheability model st known total :
  model ∈ models →
  holds known total (world st) →
  (∀ r, r ∈ known → r ∈ requests) →
  (∀ prompt, prompt ∈ prompts → newRequest model prompt maxTokens ∉ known) →
  total + payloadBytes reply (requestsFor model) ≤ cacheSizeLimit →
  ∃ st' known',
    testModel json_Marshal sha256_Sum256 envs maxTokens testCacheability c
      model st = (st', None) ∧
    lines st' = lines st ∧
    holds known' (total + payloadBytes reply (requestsFor model)) (world st') ∧
    (∀ r, r ∈ known' ↔ r ∈ known ∨ r ∈ requestsFor model).
Proof.
  intros Hm Hholds Hsub Hfresh Hroom.
  destruct (first_round (λ prompt, newRequest model prompt maxTokens)
              (λ _ _ cached, roundChecks 0 cached)
              (testPrompt json_Marshal sha256_Sum256 envs maxTokens c model 0)
              prompts st known total)
    as (st1 & known1 & Hrun1 & _ & Hlines1 & Hholds1 & Hknown1); try done.
  { intros a st0 w' line response cached. apply testPrompt_body. }
  { intros prompt Hp. split; [by apply requestsOf_model|by apply Hfresh]. }
  { apply requestsFor_NoDup. }
  assert (Hsub1 : ∀ r, r ∈ known1 → r ∈ requests).
  { intros r Hr. apply Hknown1 in Hr as [Hr|Hr]; [by apply Hsub|].
    by apply (requestsFor_requests model). }
  assert (Hin1 : ∀ prompt, prompt ∈ prompts →
                   newRequest model prompt maxTokens ∈ known1).
  { intros prompt Hp. apply Hknown1. right.
    by apply (list_elem_of_fmap_2
                (λ prompt, newRequest model prompt maxTokens)). }
  destruct (later_round (λ prompt, newRequest model prompt maxTokens)
              (λ _ _ cached, roundChecks 1 cached)
              (testPrompt json_Marshal sha256_Sum256 envs maxTokens c model 1)
              prompts st1 known1
              (total + payloadBytes reply (requestsFor model)))
    as (st2 & Hrun2 & _ & Hlines2 & Hholds2); try done.
  { intros a st0 w' line response cached. apply testPrompt_body. }
  destruct (later_round (λ prompt, newRequest model prompt maxTokens)
              (λ _ _ cached, roundChecks 2 cached)
              (testPrompt json_Marshal sha256_Sum256 envs maxTokens c model 2)
              prompts st2 known1
              (total + payloadBytes reply (requestsFor model)))
    as (st3 & Hrun3 & _ & Hlines3 & Hholds3); try done.
  { intros a st0 w' line response cached. apply testPrompt_body. }
  rewrite flat_map_nil, app_nil_r in Hlines1, Hlines2, Hlines3 by done.
  assert (Hlines : lines st3 = lines st) by congruence.
  unfold testModel. simpl forEach. unfold testRound.
  rewrite Hrun1, Hrun2, Hrun3.
  destruct testCacheability; [|by exists st3, known1].
  unfold testDeterminism.
  change (nth 0 prompts "") with "Tell me a joke.".
  assert (Hjoke : newRequest model "Tell me a joke." maxTokens ∈ known1)
    by (apply Hin1; left).
  destruct (Henvs (calls st3)) as [Hquiet _].
  destruct (one_hit (envs (calls st3)) known1 _ (world st3) _
              Hquiet Hholds3 Hsub1 Hjoke) as (w4 & -> & Hholds4).
  destruct (Henvs (S (calls st3))) as [Hquiet' _].
  destruct (one_hit (envs (S (calls st3))) known1 _ w4 _
              Hquiet' Hholds4 Hsub1 Hjoke) as (w5 & -> & Hholds5).
  eexists _, known1. split; [done|]. simpl. split_and!; try done.
  unfold assert_Equal. rewrite decide_True by done.
  by rewrite app_nil_r.
Qed.

Lemma mainPrompt_body model prompt st w' line response cached :
  getResponse c (envs (calls st)) (newRequest model prompt 100) (world st)
  = (w', Return line response cached None) →
  mainPrompt json_Marshal sha256_Sum256 envs c model prompt st
  = (mkRun w' (S (calls st)) (lines st ++ printed prompt response cached),
     None).
Proof. intros Hrun. unfold mainPrompt. rewrite Hrun. by destruct cached. Qed.

End OneLimit.

End CallerFacts.

Lemma requestsOf_split maxTokens (reply : ChatCompletionRequest → string) :
  payloadBytes reply (requestsOf maxTokens)
  = payloadBytes reply
      ((λ prompt, newRequest "gpt-3.5-turbo-1106" prompt maxTokens) <$> prompts)
    + payloadBytes reply
        ((λ prompt, newRequest "gpt-3.5-turbo-0125" prompt maxTokens)
           <$> prompts).
Proof.
  unfold requestsOf, models. cbn [flat_map].
  by rewrite app_nil_r, payloadBytes_app.
Qed.

Lemma requestsOf_all maxTokens (known known1 known2 : list ChatCompletionRequest) :
  (∀ r, r ∈ known1 ↔ r ∈ known ∨
        r ∈ (λ prompt, newRequest "gpt-3.5-turbo-1106" prompt maxTokens)
              <$> prompts) →
  (∀ r, r ∈ known2 ↔ r ∈ known1 ∨
        r ∈ (λ prompt, newRequest "gpt-3.5-turbo-0125" prompt maxTokens)
              <$> prompts) →
  ∀ r, r ∈ requestsOf maxTokens → r ∈ known2.
Proof.
  intros H1 H2 r Hr. unfold requestsOf, models in Hr. cbn [flat_map] in Hr.
  rewrite app_nil_r in Hr. apply elem_of_app in Hr as [Hr|Hr].
  - apply H2. left. apply H1. by right.
  - apply H2. by right.
Qed.

Lemma second_model_fresh maxTokens (known1 : list ChatCompletionRequest) prompt :
  (∀ r, r ∈ known1 ↔ r ∈ [] ∨
        r ∈ (λ prompt, newRequest "gpt-3.5-turbo-1106" prompt maxTokens)
              <$> prompts) →
  newRequest "gpt-3.5-turbo-0125" prompt maxTokens ∉ known1.
Proof.
  intros H1 Hin. apply H1 in Hin as [Hin|Hin]; [by apply elem_of_nil in Hin|].
  apply list_elem_of_fmap in Hin as (prompt' & Heq & _). discriminate Heq.
Qed.

Lemma holds_start {Request} (hashOf reply : Request → string) requests w m0 :
  persisted w (mkCache (Table m0)) →
  (∀ r, r ∈ requests → m0 !! hashOf r = None) →
  holds hashOf reply requests [] (totalSize m0) w.
Proof.
  intros Hpers Hnew. exists m0. split_and!; [done|done| |].
  - intros r Hr. by apply elem_of_nil in Hr.
  - intros r Hr _. by apply Hnew.
Qed.

(** X15.  The repository's test passes.  With the API key set, a cache that
    loads and holds none of the ten requests, fingerprints that tell the
    ten requests apart, a remote call that answers each of them, a limit
    that has room for the cache and the ten answers, and no failing system
    call, [TestCacheAPIResponses] ends without a panic and without a failed
    assertion: every first round misses and every later round hits, with or
    without the cacheability check.  With [keep-cache] the cache then holds
    all ten answers; without it the cache directory is gone. *)
Theorem TestCacheAPIResponses_passes
    (json_Marshal : ChatCompletionRequest → error + list byte)
    (sha256_Sum256 : list byte → list byte)
    (client : ChatCompletionRequest → error + list string)
    (envs : nat → Env) (maxTokens : Z) (testCacheability keepCache : bool)
    (hashOf reply : ChatCompletionRequest → string)
    (apiKey : string) (cacheSizeLimit : Z) (w : World)
    (m0 : gmap string CacheEntry) :
  apiKey ≠ "" →
  (∀ r, r ∈ requestsOf maxTokens →
        generateHash json_Marshal sha256_Sum256 r = inr (hashOf r)) →
  (∀ r1 r2, r1 ∈ requestsOf maxTokens → r2 ∈ requestsOf maxTokens →
            hashOf r1 = hashOf r2 → r1 = r2) →
  (∀ r, r ∈ requestsOf maxTokens →
        ∃ others, client r = inr (reply r :: others)) →
  persisted w (mkCache (Table m0)) →
  (∀ r, r ∈ requestsOf maxTokens → m0 !! hashOf r = None) →
  totalSize m0 + payloadBytes reply (requestsOf maxTokens) ≤ cacheSizeLimit →
  cacheSizeLimit ≤ Int64.max_int →
  (∀ n, noFaults (envs n) ∧ RuntimeOk (runtime (envs n))
        ∧ remove_fault (envs n) = None) →
  ∃ st,
    TestCacheAPIResponses json_Marshal sha256_Sum256 client envs maxTokens
      testCacheability keepCache apiKey cacheSizeLimit w = (st, None) ∧
    lines st = [] ∧
    (keepCache = false → disk (world st) = NoDir) ∧
    (keepCache = true →
     ∃ known,
       holds hashOf reply (requestsOf maxTokens) known
         (totalSize m0 + payloadBytes reply (requestsOf maxTokens)) (world st) ∧
       ∀ r, r ∈ requestsOf maxTokens → r ∈ known).
Proof.
  intros Hkey Hhash Hinj Hcall Hpers Hnew Hroom Hlimit Henvs.
  assert (Henvs' : ∀ n, noFaults (envs n) ∧ RuntimeOk (runtime (envs n))).
  { intros n. destruct (Henvs n) as (? & ? & _). by split. }
  rewrite requestsOf_split in Hroom.
  pose proof (payloadBytes_nonneg reply
                ((λ prompt, newRequest "gpt-3.5-turbo-0125" prompt maxTokens)
                   <$> prompts)) as Hpos2.
  destruct (testModel_passes json_Marshal sha256_Sum256 client hashOf reply
              maxTokens cacheSizeLimit Hhash Hinj Hcall Hlimit envs Henvs'
              testCacheability "gpt-3.5-turbo-1106" (mkRun w 0 [])
              [] (totalSize m0))
    as (st1 & known1 & Hrun1 & Hlines1 & Hholds1 & Hknown1).
  { left. }
  { by apply holds_start. }
  { intros r Hr. by apply elem_of_nil in Hr. }
  { intros prompt _ Hin. by apply elem_of_nil in Hin. }
  { simpl in *. lia. }
  destruct (testModel_passes json_Marshal sha256_Sum256 client hashOf reply
              maxTokens cacheSizeLimit Hhash Hinj Hcall Hlimit envs Henvs'
              testCacheability "gpt-3.5-turbo-0125" st1 known1
              (totalSize m0
               + payloadBytes reply
                   ((λ prompt, newRequest "gpt-3.5-turbo-1106" prompt maxTokens)
                      <$> prompts)))
    as (st2 & known2 & Hrun2 & Hlines2 & Hholds2 & Hknown2).
  { right. left. }
  { exact Hholds1. }
  { intros r Hr. apply Hknown1 in Hr as [Hr|Hr];
      [by apply elem_of_nil in Hr|].
    apply list_elem_of_fmap in Hr as (prompt & -> & Hp).
    apply requestsOf_model; [left|done]. }
  { intros prompt _. by eapply second_model_fresh. }
  { simpl in *. lia. }
  unfold TestCacheAPIResponses. rewrite decide_False by done.
  unfold models. cbn [forEach]. rewrite Hrun1, Hrun2.
  assert (Hnone : lines st2 = []) by (rewrite Hlines2, Hlines1; done).
  destruct keepCache.
  - exists st2. split_and!; [done|done|done|].
    intros _. exists known2. rewrite requestsOf_split, Z.add_assoc.
    split; [exact Hholds2|]. by eapply requestsOf_all.
  - unfold clearCache, os_RemoveAll.
    destruct (Henvs (calls st2)) as (_ & _ & ->).
    eexists. split; [done|]. simpl. rewrite Hnone. by split_and!.
Qed.

Section MainRuns.

Variable json_Marshal : ChatCompletionRequest → error + list byte.
Variable sha256_Sum256 : list byte → list byte.
Variable client : ChatCompletionRequest → error + list string.
Variables hashOf reply : ChatCompletionRequest → string.
Variable cacheSizeLimit : Z.

#[local] Abbreviation c := (NewCachingClient client true cacheSizeLimit).
#[local] Abbreviation requests := (requestsOf 100).
#[local] Abbreviation holds := (holds hashOf reply requests).
#[local] Abbreviation requestsFor :=
  (λ model, (λ prompt, newRequest model prompt 100) <$> prompts).
#[local] Abbreviation printedFor :=
  (λ (cached : bool) model,
     (λ prompt,
        (if cached then "Cached response for prompt '"
         else "API response for prompt '")
        +:+ prompt +:+ "': " +:+ reply (newRequest model prompt 100))
       <$> prompts).

Hypothesis Hhash :
  ∀ r, r ∈ requests →
       generateHash json_Marshal sha256_Sum256 r = inr (hashOf r).
Hypothesis Hinj :
  ∀ r1 r2, r1 ∈ requests → r2 ∈ requests → hashOf r1 = hashOf r2 → r1 = r2.
Hypothesis Hcall :
  ∀ r, r ∈ requests → ∃ others, client r = inr (reply r :: others).
Hypothesis Hlimit : cacheSizeLimit ≤ Int64.max_int.

Lemma mainModel_first envs model st known total :
  (∀ n, noFaults (envs n) ∧ RuntimeOk (runtime (envs n))) →
  model ∈ models →
  holds known total (world st) →
  (∀ r, r ∈ known → r ∈ requests) →
  (∀ prompt, prompt ∈ prompts → newRequest model prompt 100 ∉ known) →
  total + payloadBytes reply (requestsFor model) ≤ cacheSizeLimit →
  ∃ st' known',
    mainModel json_Marshal sha256_Sum256 envs c model st = (st', None) ∧
    lines st'
    = lines st ++ ("Testing model: " +:+ model) :: printedFor false model ∧
    holds known' (total + payloadBytes reply (requestsFor model)) (world st') ∧
    (∀ r, r ∈ known' ↔ r ∈ known ∨ r ∈ requestsFor model).
Proof.
  intros Henvs Hm Hholds Hsub Hfresh Hroom. unfold mainModel.
  destruct (first_round json_Marshal sha256_Sum256 client hashOf reply 100
              cacheSizeLimit Hhash Hinj Hcall Hlimit envs Henvs
              (λ prompt, newRequest model prompt 100)
              (λ prompt response cached, printed prompt response cached)
              (mainPrompt json_Marshal sha256_Sum256 envs c model)
              prompts
              (mkRun (world st) (calls st)
                 (lines st ++ ["Testing model: " +:+ model]))
              known total)
    as (st' & known' & Hrun & _ & Hlines & Hholds' & Hknown').
  { intros a st0 w' line response cached.
    apply (mainPrompt_body json_Marshal sha256_Sum256 client cacheSizeLimit). }
  { exact Hholds. }
  { exact Hsub. }
  { intros prompt Hp. split; [by apply requestsOf_model|by apply Hfresh]. }
  { apply (NoDup_fmap_2 (λ prompt, newRequest model prompt 100)).
    apply prompts_NoDup. }
  { exact Hroom. }
  exists st', known'. split_and!; try done.
  simpl in Hlines. rewrite Hlines, <- app_assoc. done.
Qed.

Lemma mainModel_later envs model st known total :
  (∀ n, noFaults (envs n) ∧ RuntimeOk (runtime (envs n))) →
  holds known total (world st) →
  (∀ r, r ∈ known → r ∈ requests) →
  (∀ prompt, prompt ∈ prompts → newRequest model prompt 100 ∈ known) →
  ∃ st',
    mainModel json_Marshal sha256_Sum256 envs c model st = (st', None) ∧
    lines st'
    = lines st ++ ("Testing model: " +:+ model) :: printedFor true model ∧
    holds known total (world st').
Proof.
  intros Henvs Hholds Hsub Hin. unfold mainModel.
  destruct (later_round json_Marshal sha256_Sum256 client hashOf reply 100
              cacheSizeLimit Hhash Hinj envs Henvs
              (λ prompt, newRequest model prompt 100)
              (λ prompt response cached, printed prompt response cached)
              (mainPrompt json_Marshal sha256_Sum256 envs c model)
              prompts
              (mkRun (world st) (calls st)
                 (lines st ++ ["Testing model: " +:+ model]))
              known total)
    as (st' & Hrun & _ & Hlines & Hholds').
  { intros a st0 w' line response cached.
    apply (mainPrompt_body json_Marshal sha256_Sum256 client cacheSizeLimit). }
  { exact Hholds. }
  { exact Hsub. }
  { exact Hin. }
  exists st'. split_and!; try done.
  simpl in Hlines. rewrite Hlines, <- app_assoc. done.
Qed.

(** X16.  Running [main] twice with [-cache-requests]: from a cache that
    loads and holds none of the ten requests, with fingerprints that tell
    them apart, a remote call that answers each, room under the limit for
    the cache and the ten answers, and no failing system call, the first
    run prints every answer as an API response and the second run prints
    the same answers, each as a cached response; both runs exit
    normally. *)
Theorem main_second_run_cached envs1 envs2 apiKey w (m0 : gmap string CacheEntry) :
  apiKey ≠ "" →
  persisted w (mkCache (Table m0)) →
  (∀ r, r ∈ requests → m0 !! hashOf r = None) →
  totalSize m0 + payloadBytes reply requests ≤ cacheSizeLimit →
  (∀ n, noFaults (envs1 n) ∧ RuntimeOk (runtime (envs1 n))) →
  (∀ n, noFaults (envs2 n) ∧ RuntimeOk (runtime (envs2 n))) →
  ∃ w1 w2,
    main json_Marshal sha256_Sum256 client envs1 apiKey true cacheSizeLimit w
    = (w1, transcript reply false, Exit0) ∧
    main json_Marshal sha256_Sum256 client envs2 apiKey true cacheSizeLimit w1
    = (w2, transcript reply true, Exit0).
Proof.
  intros Hkey Hpers Hnew Hroom Henvs1 Henvs2.
  rewrite requestsOf_split in Hroom.
  pose proof (payloadBytes_nonneg reply (requestsFor "gpt-3.5-turbo-0125"))
    as Hpos2.
  destruct (mainModel_first envs1 "gpt-3.5-turbo-1106" (mkRun w 0 []) []
              (totalSize m0) Henvs1)
    as (st1 & known1 & Hrun1 & Hlines1 & Hholds1 & Hknown1).
  { left. }
  { by apply holds_start. }
  { intros r Hr. by apply elem_of_nil in Hr. }
  { intros prompt _ Hin. by apply elem_of_nil in Hin. }
  { simpl in *. lia. }
  assert (Hsub1 : ∀ r, r ∈ known1 → r ∈ requests).
  { intros r Hr. apply Hknown1 in Hr as [Hr|Hr];
      [by apply elem_of_nil in Hr|].
    apply list_elem_of_fmap in Hr as (prompt & -> & Hp).
    apply requestsOf_model; [left|done]. }
  destruct (mainModel_first envs1 "gpt-3.5-turbo-0125" st1 known1
              (totalSize m0 + payloadBytes reply (requestsFor "gpt-3.5-turbo-1106"))
              Henvs1)
    as (st2 & known2 & Hrun2 & Hlines2 & Hholds2 & Hknown2); try done.
  { right. left. }
  { intros prompt _. by eapply second_model_fresh. }
  { simpl in *. lia. }
  assert (Hsub2 : ∀ r, r ∈ known2 → r ∈ requests).
  { intros r Hr. apply Hknown2 in Hr as [Hr|Hr]; [by apply Hsub1|].
    apply list_elem_of_fmap in Hr as (prompt & -> & Hp).
    apply requestsOf_model; [right; left|done]. }
  assert (Hall : ∀ model prompt, model ∈ models → prompt ∈ prompts →
                   newRequest model prompt 100 ∈ known2).
  { intros model prompt Hm Hp.
    apply (requestsOf_all 100 [] known1 known2 Hknown1 Hknown2).
    by apply requestsOf_model. }
  destruct (mainModel_later envs2 "gpt-3.5-turbo-1106"
              (mkRun (world st2) 0 []) known2 _ Henvs2 Hholds2 Hsub2)
    as (st3 & Hrun3 & Hlines3 & Hholds3).
  { intros prompt Hp. apply Hall; [left|done]. }
  destruct (mainModel_later envs2 "gpt-3.5-turbo-0125" st3 known2 _
              Henvs2 Hholds3 Hsub2)
    as (st4 & Hrun4 & Hlines4 & Hholds4).
  { intros prompt Hp. apply Hall; [right; left|done]. }
  exists (world st2), (world st4). unfold main, models. cbn [forEach].
  rewrite Hrun1, Hrun2, Hrun3, Hrun4.
  destruct (decide (apiKey = "")); [done|]. split.
  - rewrite Hlines2, Hlines1. unfold transcript, models. cbn [flat_map].
    simpl lines. rewrite app_nil_l, app_nil_r. reflexivity.
  - rewrite Hlines4, Hlines3. unfold transcript, models. cbn [flat_map].
    simpl lines. rewrite app_nil_l, app_nil_r. reflexivity.
Qed.

End MainRuns.

(** ** The callers on sample values *)

Lemma sampleHashChat_inj maxTokens r1 r2 :
  r1 ∈ requestsOf maxTokens → r2 ∈ requestsOf maxTokens →
  sampleHashChat r1 = sampleHashChat r2 → r1 = r2.
Proof.
  intros H1 H2 Heq. apply hex_EncodeToString_inj in Heq.
  unfold sampleDigest in Heq.
  apply (f_equal String.string_of_list_byte) in Heq.
  rewrite !String.string_of_list_byte_of_string in Heq.
  apply list_elem_of_In, in_flat_map in H1 as (m1 & Hm1 & H1).
  apply list_elem_of_In, in_flat_map in H2 as (m2 & Hm2 & H2).
  apply list_elem_of_In, list_elem_of_fmap in H1 as (p1 & -> & Hp1).
  apply list_elem_of_In, list_elem_of_fmap in H2 as (p2 & -> & Hp2).
  apply list_elem_of_In in Hm1, Hm2.
  unfold models, prompts in *.
  repeat (apply elem_of_cons in Hm1 as [->|Hm1]);
    [| |by apply elem_of_nil in Hm1];
    (repeat (apply elem_of_cons in Hm2 as [->|Hm2]);
       [| |by apply elem_of_nil in Hm2]);
    (repeat (apply elem_of_cons in Hp1 as [->|Hp1]);
       [| | | | |by apply elem_of_nil in Hp1]);
    (repeat (apply elem_of_cons in Hp2 as [->|Hp2]);
       [| | | | |by apply elem_of_nil in Hp2]);
    first [reflexivity | discriminate Heq].
Qed.

Lemma sampleEnvs_ok n :
  noFaults (sampleEnvs n) ∧ RuntimeOk (runtime (sampleEnvs n))
  ∧ remove_fault (sampleEnvs n) = None.
Proof.
  split; [by repeat split|]. split; [apply stableRuntime_ok|done].
Qed.

Lemma persisted_cold ws : persisted (mkWorld NoDir ws) (mkCache (Table ∅)).
Proof. intros env _. reflexivity. Qed.

Lemma TestCacheAPIResponses_passes_witness :
  ∃ st,
    TestCacheAPIResponses sampleMarshalChat sampleDigest sampleChatClient
      sampleEnvs 0 true false "sk-test" 1000 (mkWorld NoDir []) = (st, None) ∧
    lines st = [] ∧
    (false = false → disk (world st) = NoDir) ∧
    (false = true →
     ∃ known,
       holds sampleHashChat sampleReply (requestsOf 0) known
         (totalSize ∅ + payloadBytes sampleReply (requestsOf 0)) (world st) ∧
       ∀ r, r ∈ requestsOf 0 → r ∈ known).
Proof.
  apply (TestCacheAPIResponses_passes sampleMarshalChat sampleDigest
           sampleChatClient sampleEnvs 0 true false sampleHashChat sampleReply
           "sk-test" 1000 (mkWorld NoDir []) ∅).
  - discriminate.
  - intros r _. reflexivity.
  - apply sampleHashChat_inj.
  - intros r _. exists []. reflexivity.
  - apply persisted_cold.
  - intros r _. apply lookup_empty.
  - vm_compute. discriminate.
  - vm_compute. discriminate.
  - apply sampleEnvs_ok.
Defined.

Lemma main_second_run_cached_witness :
  ∃ w1 w2,
    main sampleMarshalChat sampleDigest sampleChatClient sampleEnvs
      "sk-test" true 1000 (mkWorld NoDir [])
    = (w1, transcript sampleReply false, Exit0) ∧
    main sampleMarshalChat sampleDigest sampleChatClient sampleEnvs
      "sk-test" true 1000 w1
    = (w2, transcript sampleReply true, Exit0).
Proof.
  apply (main_second_run_cached sampleMarshalChat sampleDigest sampleChatClient
           sampleHashChat sampleReply 1000
           (λ r _, eq_refl) (sampleHashChat_inj 100)
           (λ r _, ex_intro _ [] eq_refl)
           ltac:(vm_compute; discriminate)
           sampleEnvs sampleEnvs "sk-test" (mkWorld NoDir []) ∅).
  - discriminate.
  - apply persisted_cold.
  - intros r _. apply lookup_empty.
  - vm_compute. discriminate.
  - intros n. destruct (sampleEnvs_ok n) as (? & ? & _). by split.
  - intros n. destruct (sampleEnvs_ok n) as (? & ? & _). by split.
Defined.

(** ** More on the fingerprint *)

(** X17.  A fingerprint is the digest written in hexadecimal and nothing
    else: it has two characters per byte of the digest, and two requests
    that get the same fingerprint have serializations with the same
    digest. *)
Theorem generateHash_same_digest {Request}
    (json_Marshal : Request → error + list byte)
    (sha256_Sum256 : list byte → list byte) req1 req2 hash :
  generateHash json_Marshal sha256_Sum256 req1 = inr hash →
  generateHash json_Marshal sha256_Sum256 req2 = inr hash →
  ∃ data1 data2,
    json_Marshal req1 = inr data1 ∧ json_Marshal req2 = inr data2 ∧
    sha256_Sum256 data1 = sha256_Sum256 data2 ∧
    String.length hash = (2 * length (sha256_Sum256 data1))%nat.
Proof.
  intros H1 H2.
  destruct (generateHash_collision _ _ _ _ _ H1 H2)
    as (data1 & data2 & Hd1 & Hd2 & Heq).
  exists data1, data2. split_and!; try done.
  unfold generateHash in H1. rewrite Hd1 in H1. injection H1 as <-.
  apply hex_EncodeToString_length.
Qed.

Lemma generateHash_same_digest_witness :
  ∃ data1 data2,
    sampleMarshal "Tell me a joke." = inr data1 ∧
    sampleMarshal "Tell me a joke." = inr data2 ∧
    sampleDigest data1 = sampleDigest data2 ∧
    String.length (sampleHash "Tell me a joke.")
    = (2 * length (sampleDigest data1))%nat.
Proof.
  apply (generateHash_same_digest sampleMarshal sampleDigest
           "Tell me a joke." "Tell me a joke." (sampleHash "Tell me a joke."));
    reflexivity.
Defined.
